(** * EU AI Act intake chatbot: state reconciliation and response extraction

    A shallow embedding of the two TypeScript files that carry the logic of
    the application:

    - [pages/api/chat.ts]: [sanitizeStateUpdates] and the API [handler]
      (validation, the call to the upstream model, extraction of the
      structured block from the reply, the response bundle);
    - the page component ([Home]): [mergeState], [sendMessage],
      [selectRole], [saveOrg].

    JavaScript values are embedded as an inductive type, exceptions as a
    result type, the network as an explicit log of outbound calls, React
    state as explicit state passing. *)

From Stdlib Require Import String Ascii List ZArith Bool Arith Lia.
From Stdlib Require Import Numbers.DecimalString.
Import ListNotations.

Set Implicit Arguments.
Local Open Scope string_scope.
Local Open Scope list_scope.

(* ===================================================================== *)
(** ** Exceptions *)
(* ===================================================================== *)

(** What a JavaScript expression of this program can throw.  The text of
    the message is engine specific and is not modelled. *)
Inductive exn : Type :=
| TypeError
| SyntaxError.

Inductive result (A : Type) : Type :=
| Ok (a : A)
| Throw (e : exn).
Arguments Ok {A} a.
Arguments Throw {A} e.

Definition bind {A B : Type} (r : result A) (k : A -> result B) : result B :=
  match r with
  | Ok a => k a
  | Throw e => Throw e
  end.

Notation "x <- c ;; k" := (bind c (fun x => k))
  (at level 61, c at next level, right associativity).

Definition returns {A : Type} (r : result A) : Prop := exists a, r = Ok a.

(** [xs.map((x, idx) => f(x, idx))] when the callback can throw: the first
    exception aborts the whole call. *)
Fixpoint map_indexed {A B : Type} (f : A -> nat -> result B) (idx : nat)
    (xs : list A) : result (list B) :=
  match xs with
  | [] => Ok []
  | x :: rest =>
      y <- f x idx ;;
      ys <- map_indexed f (S idx) rest ;;
      Ok (y :: ys)
  end.

(* ===================================================================== *)
(** ** Strings *)
(* ===================================================================== *)

(** A JavaScript string is a sequence of code units; a character of a Rocq
    string stands for one code unit (below 256). *)

Definition nonempty (s : string) : bool :=
  match s with
  | EmptyString => false
  | String _ _ => true
  end.

(** Template-literal rendering of an integer ([Date.now()], an index). *)
Definition decimal (z : Z) : string := NilZero.string_of_int (Z.to_int z).

(** [parts.join(sep)] on strings. *)
Fixpoint join (sep : string) (parts : list string) : string :=
  match parts with
  | [] => ""
  | [p] => p
  | p :: rest => p ++ sep ++ join sep rest
  end.

(* ===================================================================== *)
(** ** JavaScript values *)
(* ===================================================================== *)

(** Numbers are IEEE doubles.  The program never computes with a number it
    receives: it tests its truthiness and converts it to a string, so these
    two operations are the interface the embedding needs. *)
Class JsNumber (number : Type) : Type := {
  number_truthy : number -> bool;       (* false for 0, -0 and NaN *)
  number_to_string : number -> string   (* Number::toString *)
}.

#[local] Set Warnings "-register-all".

Inductive value (number : Type) : Type :=
| JUndefined
| JNull
| JBool (b : bool)
| JNum (n : number)
| JStr (s : string)
| JArr (elems : list (value number))
| JObj (props : list (string * value number)).
Arguments JUndefined {number}.
Arguments JNull {number}.
Arguments JBool {number} b.
Arguments JNum {number} n.
Arguments JStr {number} s.
Arguments JArr {number} elems.
Arguments JObj {number} props.

(** An own property of an object literal: the first binding of the key. *)
Fixpoint lookup {V : Type} (k : string) (props : list (string * V)) : option V :=
  match props with
  | [] => None
  | (k', v) :: rest => if String.eqb k k' then Some v else lookup k rest
  end.

Section Values.
Context {number : Type} `{JsNumber number}.

#[local] Abbreviation value := (value number) (only parsing).

(** ToBoolean. *)
Definition truthy (v : value) : bool :=
  match v with
  | JUndefined | JNull => false
  | JBool b => b
  | JNum n => number_truthy n
  | JStr s => nonempty s
  | JArr _ | JObj _ => true
  end.

Inductive jstype : Type :=
| TUndefined | TObject | TBoolean | TNumber | TString.

(** [typeof v]: [null] and arrays are ['object']. *)
Definition typeof (v : value) : jstype :=
  match v with
  | JUndefined => TUndefined
  | JNull | JArr _ | JObj _ => TObject
  | JBool _ => TBoolean
  | JNum _ => TNumber
  | JStr _ => TString
  end.

Definition is_object (v : value) : bool :=
  match typeof v with TObject => true | _ => false end.

Definition is_string (v : value) : bool :=
  match v with JStr _ => true | _ => false end.

Definition isArray (v : value) : bool :=
  match v with JArr _ => true | _ => false end.

(** [v.k] for the property names this program reads.  None of them is a
    built-in property of strings, arrays, numbers or booleans, so reading
    one from such a value gives [undefined]; reading from [null] or
    [undefined] throws. *)
Definition get (v : value) (k : string) : result value :=
  match v with
  | JUndefined | JNull => Throw TypeError
  | JObj props =>
      match lookup k props with
      | Some x => Ok x
      | None => Ok JUndefined
      end
  | _ => Ok JUndefined
  end.

(** [v?.k] *)
Definition get_opt (v : value) (k : string) : value :=
  match get v k with
  | Ok x => x
  | Throw _ => JUndefined
  end.

(** [a || b] *)
Definition or_else (a b : value) : value := if truthy a then a else b.

(** [String(v)].  An array joins the conversions of its elements with a
    comma, [null] and [undefined] counting as empty.  A plain object gives
    ["[object Object]"], unless it has an own [toString] property: parsed
    JSON holds no function, so the conversion finds nothing callable and
    throws. *)
Fixpoint to_String (v : value) : result string :=
  match v with
  | JUndefined => Ok "undefined"
  | JNull => Ok "null"
  | JBool true => Ok "true"
  | JBool false => Ok "false"
  | JNum n => Ok (number_to_string n)
  | JStr s => Ok s
  | JArr elems =>
      parts <- (fix each (l : list value) : result (list string) :=
                  match l with
                  | [] => Ok []
                  | e :: rest =>
                      p <- match e with
                           | JUndefined | JNull => Ok ""
                           | _ => to_String e
                           end ;;
                      ps <- each rest ;;
                      Ok (p :: ps)
                  end) elems ;;
      Ok (join "," parts)
  | JObj props =>
      match lookup "toString" props with
      | Some _ => Throw TypeError
      | None => Ok "[object Object]"
      end
  end.

(** [xs.filter(x => typeof x === 'string')] *)
Fixpoint strings_of (xs : list value) : list string :=
  match xs with
  | [] => []
  | JStr s :: rest => s :: strings_of rest
  | _ :: rest => strings_of rest
  end.

End Values.

(* ===================================================================== *)
(** ** The data model: [AgentState] *)
(* ===================================================================== *)

(** An optional property [p?: T] of an object is in one of three states:
    the object has no such property, it has the property with the value
    [undefined], or the property holds a [T].  Object spread copies a
    property in either of the last two states; [JSON.stringify] writes it
    only in the last. *)
Inductive field (A : Type) : Type :=
| Absent
| Undef
| Val (a : A).
Arguments Absent {A}.
Arguments Undef {A}.
Arguments Val {A} a.

(** Truthiness of a property read, [o.p ? ... : ...] or [o.p || d], when
    every [T] is truthy (objects, arrays). *)
Definition provided {A : Type} (f : field A) : option A :=
  match f with
  | Val a => Some a
  | _ => None
  end.

(** [{ ...a, ...b }] at one property: [b]'s own property wins, whatever it
    holds. *)
Definition spread_field {A : Type} (a b : field A) : field A :=
  match b with
  | Absent => a
  | _ => b
  end.

Inductive Risk : Type :=
| minimal | limited | high | prohibited | unknown.

Module Org.
Record t : Type := mk {
  name : field string;
  country : field string;
  industry : field string;
  size : field string
}.

(** The object [{}]. *)
Definition empty : t := mk Absent Absent Absent Absent.

(** [{ ...a, ...b }] *)
Definition spread (a b : t) : t :=
  mk (spread_field (name a) (name b))
     (spread_field (country a) (country b))
     (spread_field (industry a) (industry b))
     (spread_field (size a) (size b)).
End Org.

Module UseCase.
(** The declared type has [id: string]; the sanitizer builds records
    whose [id] is whatever truthy value the payload carried, hence the
    parameter. *)
Record t (Id : Type) : Type := mk {
  id : Id;
  name : field string;
  description : field string;
  process : field string;
  inScope : field bool;
  risk : field Risk;
  model : field string;
  data : field (list string);
  subjects : field (list string);
  owner : field string;
  jurisdictions : field (list string)
}.
Arguments mk {Id}.
Arguments id {Id}.
Arguments name {Id}.
Arguments description {Id}.
Arguments process {Id}.
Arguments inScope {Id}.
Arguments risk {Id}.
Arguments model {Id}.
Arguments data {Id}.
Arguments subjects {Id}.
Arguments owner {Id}.
Arguments jurisdictions {Id}.

(** [{ ...a, ...b }] where [b] has its required [id]. *)
Definition spread {Id : Type} (a b : t Id) : t Id :=
  mk (id b)
     (spread_field (name a) (name b))
     (spread_field (description a) (description b))
     (spread_field (process a) (process b))
     (spread_field (inScope a) (inScope b))
     (spread_field (risk a) (risk b))
     (spread_field (model a) (model b))
     (spread_field (data a) (data b))
     (spread_field (subjects a) (subjects b))
     (spread_field (owner a) (owner b))
     (spread_field (jurisdictions a) (jurisdictions b)).
End UseCase.

(** [AgentState] and [Partial<AgentState>]: every property is optional
    already. *)
Record AgentStateOf (Id : Type) : Type := mkState {
  org : field Org.t;
  roles : field (list string);
  useCases : field (list (UseCase.t Id))
}.
Arguments mkState {Id}.
Arguments org {Id}.
Arguments roles {Id}.
Arguments useCases {Id}.

Definition AgentState : Type := AgentStateOf string.

(* ===================================================================== *)
(** ** [sanitizeStateUpdates] (pages/api/chat.ts) *)
(* ===================================================================== *)

Section Sanitizer.
Context {number : Type} `{JsNumber number}.

#[local] Abbreviation value := (value number) (only parsing).

(** Successive readings of [Date.now()]: [clock idx] is the reading
    taken while the element at position [idx] is mapped. *)
Variable clock : nat -> Z.

(** [x ? String(x) : undefined] *)
Definition string_or_undefined (x : value) : result (field string) :=
  if truthy x then s <- to_String x ;; Ok (Val s) else Ok Undef.

(** [Array.isArray(x) ? x.filter(e => typeof e === 'string') : undefined] *)
Definition strings_or_undefined (x : value) : field (list string) :=
  match x with
  | JArr elems => Val (strings_of elems)
  | _ => Undef
  end.

(** [['minimal', 'limited', 'high', 'prohibited', 'unknown'].includes(x)
    ? x : undefined] *)
Definition risk_or_undefined (x : value) : field Risk :=
  match x with
  | JStr "minimal" => Val minimal
  | JStr "limited" => Val limited
  | JStr "high" => Val high
  | JStr "prohibited" => Val prohibited
  | JStr "unknown" => Val unknown
  | _ => Undef
  end.

(** [typeof x === 'boolean' ? x : undefined] *)
Definition boolean_or_undefined (x : value) : field bool :=
  match x with
  | JBool b => Val b
  | _ => Undef
  end.

(** [`uc-${Date.now()}-${idx}`] *)
Definition fallback_id (idx : nat) : string :=
  "uc-" ++ decimal (clock idx) ++ "-" ++ decimal (Z.of_nat idx).

(** The callback of [input.useCases.map]. *)
Definition sanitize_useCase (u : value) (idx : nat) : result (UseCase.t value) :=
  u_id <- get u "id" ;;
  u_name <- get u "name" ;;
  name' <- string_or_undefined u_name ;;
  u_description <- get u "description" ;;
  description' <- string_or_undefined u_description ;;
  u_process <- get u "process" ;;
  process' <- string_or_undefined u_process ;;
  u_inScope <- get u "inScope" ;;
  u_risk <- get u "risk" ;;
  u_model <- get u "model" ;;
  model' <- string_or_undefined u_model ;;
  u_data <- get u "data" ;;
  u_subjects <- get u "subjects" ;;
  u_owner <- get u "owner" ;;
  owner' <- string_or_undefined u_owner ;;
  u_jurisdictions <- get u "jurisdictions" ;;
  Ok (UseCase.mk
        (or_else u_id (JStr (fallback_id idx)))
        name' description' process'
        (boolean_or_undefined u_inScope)
        (risk_or_undefined u_risk)
        model'
        (strings_or_undefined u_data)
        (strings_or_undefined u_subjects)
        owner'
        (strings_or_undefined u_jurisdictions)).

(** The object literal assigned to [su.org]. *)
Definition sanitize_org (o : value) : result Org.t :=
  o_name <- get o "name" ;;
  name' <- string_or_undefined o_name ;;
  o_country <- get o "country" ;;
  country' <- string_or_undefined o_country ;;
  o_industry <- get o "industry" ;;
  industry' <- string_or_undefined o_industry ;;
  o_size <- get o "size" ;;
  size' <- string_or_undefined o_size ;;
  Ok (Org.mk name' country' industry' size').

(** [sanitizeStateUpdates(input)]: [Ok None] is the result [undefined]. *)
Definition sanitizeStateUpdates (input : value)
    : result (option (AgentStateOf value)) :=
  if negb (truthy input) || negb (is_object input) then Ok None
  else
    input_org <- get input "org" ;;
    su_org <- (if truthy input_org && is_object input_org
               then o <- sanitize_org input_org ;; Ok (Val o)
               else Ok Absent) ;;
    input_roles <- get input "roles" ;;
    let su_roles :=
      match input_roles with
      | JArr rs => Val (strings_of rs)
      | _ => Absent
      end in
    input_useCases <- get input "useCases" ;;
    su_useCases <- match input_useCases with
                   | JArr us =>
                       l <- map_indexed sanitize_useCase 0 us ;; Ok (Val l)
                   | _ => Ok Absent
                   end ;;
    Ok (Some (mkState su_org su_roles su_useCases)).

End Sanitizer.

(* ===================================================================== *)
(** ** [mergeState] (the page component) *)
(* ===================================================================== *)

(** [Map<string, V>]: a key keeps the position of its first insertion,
    [set] on a key already there replaces its value in place, and
    [values()] iterates in that order. *)
Module JsMap.
Definition t (V : Type) : Type := list (string * V).

Definition empty {V : Type} : t V := [].

Fixpoint set {V : Type} (k : string) (v : V) (m : t V) : t V :=
  match m with
  | [] => [(k, v)]
  | (k', v') :: rest =>
      if String.eqb k k' then (k, v) :: rest else (k', v') :: set k v rest
  end.

Definition get {V : Type} (k : string) (m : t V) : option V := lookup k m.

Definition keys {V : Type} (m : t V) : list string := map fst m.

Definition values {V : Type} (m : t V) : list V := map snd m.
End JsMap.

Definition UseCaseT : Type := UseCase.t string.

(** [{ ...(byId.get(u.id) || {}), ...u }] *)
Definition spread_onto (found : option UseCaseT) (u : UseCaseT) : UseCaseT :=
  match found with
  | Some e => UseCase.spread e u
  | None => u
  end.

(** [for (const u of existing) byId.set(u.id, u)] *)
Definition index_existing (existing : list UseCaseT) (byId : JsMap.t UseCaseT)
    : JsMap.t UseCaseT :=
  fold_left (fun m u => JsMap.set (UseCase.id u) u m) existing byId.

(** [for (const u of incoming)
       byId.set(u.id, { ...(byId.get(u.id) || {}), ...u })] *)
Definition fold_incoming (incoming : list UseCaseT) (byId : JsMap.t UseCaseT)
    : JsMap.t UseCaseT :=
  fold_left
    (fun m u =>
       JsMap.set (UseCase.id u) (spread_onto (JsMap.get (UseCase.id u) m) u) m)
    incoming byId.

(** The immediately invoked function that computes the new [useCases]. *)
Definition merge_useCases (existing incoming : list UseCaseT) : list UseCaseT :=
  JsMap.values (fold_incoming incoming (index_existing existing JsMap.empty)).

(** [x || d] on an optional property whose values are all truthy. *)
Definition or_default {A : Type} (f : field A) (d : A) : A :=
  match provided f with
  | Some a => a
  | None => d
  end.

(** [mergeState(update)]: the state transformer handed to [setAgentState];
    [None] is the argument [undefined], for which nothing is set. *)
Definition mergeState (update : option AgentState) (prev : AgentState)
    : AgentState :=
  match update with
  | None => prev
  | Some update =>
      mkState
        (match provided (org update) with
         | Some update_org =>
             Val (Org.spread (or_default (org prev) Org.empty) update_org)
         | None => org prev
         end)
        (match provided (roles update) with
         | Some update_roles => Val update_roles
         | None => roles prev
         end)
        (match provided (useCases update) with
         | Some incoming =>
             Val (merge_useCases (or_default (useCases prev) []) incoming)
         | None => useCases prev
         end)
  end.

(** [useState<AgentState>({ roles: [], useCases: [] })] *)
Definition initialAgentState : AgentState := mkState Absent (Val []) (Val []).

(* ===================================================================== *)
(** ** From the API response to the client: JSON *)
(* ===================================================================== *)

(** [res.json(...)] on the server and [res.json()] on the client carry the
    bundle as JSON text: a property whose value is [undefined] is not
    written, so it is absent on the other side. *)
Definition json_field {A : Type} (f : field A) : field A :=
  match f with
  | Undef => Absent
  | _ => f
  end.

Definition json_org (o : Org.t) : Org.t :=
  Org.mk (json_field (Org.name o)) (json_field (Org.country o))
         (json_field (Org.industry o)) (json_field (Org.size o)).

(** The client reads the update at the declared type, where [id] is a
    string; a record whose [id] is another kind of value has no image in
    the typed state and the model stops there. *)
Definition json_useCase {number : Type} (u : UseCase.t (value number))
    : option UseCaseT :=
  match UseCase.id u with
  | JStr s =>
      Some (UseCase.mk s
              (json_field (UseCase.name u))
              (json_field (UseCase.description u))
              (json_field (UseCase.process u))
              (json_field (UseCase.inScope u))
              (json_field (UseCase.risk u))
              (json_field (UseCase.model u))
              (json_field (UseCase.data u))
              (json_field (UseCase.subjects u))
              (json_field (UseCase.owner u))
              (json_field (UseCase.jurisdictions u)))
  | _ => None
  end.

Fixpoint json_useCases {number : Type} (us : list (UseCase.t (value number)))
    : option (list UseCaseT) :=
  match us with
  | [] => Some []
  | u :: rest =>
      match json_useCase u, json_useCases rest with
      | Some u', Some rest' => Some (u' :: rest')
      | _, _ => None
      end
  end.

Definition json_useCases_field {number : Type}
    (f : field (list (UseCase.t (value number)))) : option (field (list UseCaseT)) :=
  match f with
  | Val us =>
      match json_useCases us with
      | Some us' => Some (Val us')
      | None => None
      end
  | _ => Some Absent
  end.

Definition json_org_field (f : field Org.t) : field Org.t :=
  match f with
  | Val o => Val (json_org o)
  | _ => Absent
  end.

Definition json_update {number : Type} (su : AgentStateOf (value number))
    : option AgentState :=
  match json_useCases_field (useCases su) with
  | Some ucs => Some (mkState (json_org_field (org su)) (json_field (roles su)) ucs)
  | None => None
  end.

(* ===================================================================== *)
(** ** String operations and the regular expressions of the handler *)
(* ===================================================================== *)

Definition backtick : ascii := "`"%char.

(** The three-backtick fence marker. *)
Definition fence : string := "```".

(** White space as [\s] and [trim()] see it, among code units below 256:
    TAB, LF, VT, FF, CR, SPACE and NBSP. *)
Definition is_space (c : ascii) : bool :=
  let n := nat_of_ascii c in
  (((9 <=? n) && (n <=? 13)) || (n =? 32) || (n =? 160))%nat.

(** Canonicalization of a code unit under the [i] flag: upper case for the
    letters [a]..[z]; no code unit from 128 on is identified with an ASCII
    letter. *)
Definition canonicalize (c : ascii) : ascii :=
  let n := nat_of_ascii c in
  if ((97 <=? n) && (n <=? 122))%nat then ascii_of_nat (n - 32) else c.

Fixpoint starts_with (pat s : string) : bool :=
  match pat, s with
  | EmptyString, _ => true
  | String p pat', String c s' => Ascii.eqb p c && starts_with pat' s'
  | String _ _, EmptyString => false
  end.

Fixpoint starts_with_ci (pat s : string) : bool :=
  match pat, s with
  | EmptyString, _ => true
  | String p pat', String c s' =>
      Ascii.eqb (canonicalize p) (canonicalize c) && starts_with_ci pat' s'
  | String _ _, EmptyString => false
  end.

Fixpoint drop (n : nat) (s : string) : string :=
  match n, s with
  | O, _ => s
  | S k, String _ t => drop k t
  | S _, EmptyString => EmptyString
  end.

Fixpoint take (n : nat) (s : string) : string :=
  match n, s with
  | S k, String c t => String c (take k t)
  | _, _ => EmptyString
  end.

Fixpoint skip_spaces (s : string) : string :=
  match s with
  | String c t => if is_space c then skip_spaces t else s
  | EmptyString => EmptyString
  end.

Fixpoint trim_end (s : string) : string :=
  match s with
  | EmptyString => EmptyString
  | String c t =>
      match trim_end t with
      | EmptyString => if is_space c then EmptyString else String c EmptyString
      | t' => String c t'
      end
  end.

(** [s.trim()] *)
Definition trim (s : string) : string := trim_end (skip_spaces s).

(** Index of the first fence marker in [s]. *)
Fixpoint find_fence (s : string) : option nat :=
  if starts_with fence s then Some 0
  else match s with
       | EmptyString => None
       | String _ t => option_map S (find_fence t)
       end.

(** [/```json\s*([\s\S]*?)```/i] anchored at the start of [s]: capture
    group 1.  [\s*] takes all the white space after the tag; giving some of
    it back never helps, for white space holds no backtick; the lazy group
    then runs to the first fence marker. *)
Definition json_fence_at (s : string) : option string :=
  if starts_with_ci "```json" s then
    let body := skip_spaces (drop 7 s) in
    match find_fence body with
    | Some i => Some (take i body)
    | None => None
    end
  else None.

(** [reply.match(/```json\s*([\s\S]*?)```/i)]: group 1 of the leftmost
    match. *)
Fixpoint match_json_fence (s : string) : option string :=
  match json_fence_at s with
  | Some g => Some g
  | None =>
      match s with
      | EmptyString => None
      | String _ t => match_json_fence t
      end
  end.

(** The suffix of [s] that starts at its first [{]. *)
Fixpoint from_first_open (s : string) : option string :=
  match s with
  | EmptyString => None
  | String c t => if Ascii.eqb c "{" then Some s else from_first_open t
  end.

(** The longest prefix of [s] that ends in [}]. *)
Fixpoint upto_last_close (s : string) : option string :=
  match s with
  | EmptyString => None
  | String c t =>
      match upto_last_close t with
      | Some p => Some (String c p)
      | None => if Ascii.eqb c "}" then Some (String c EmptyString) else None
      end
  end.

(** [reply.match(/{[\s\S]*}/)]: the match itself, from the first [{] to
    the last [}] after it. *)
Definition match_braces (s : string) : option string :=
  match from_first_open s with
  | Some r => upto_last_close r
  | None => None
  end.

(** Length of the match of [/```json[\s\S]*?```/i] anchored at the start
    of [s]. *)
Definition json_fence_span (s : string) : option nat :=
  if starts_with_ci "```json" s then
    option_map (fun i => 7 + i + 3) (find_fence (drop 7 s))
  else None.

(** Length of the match of [/```[\s\S]*?```/i] anchored at the start of
    [s]. *)
Definition fence_span (s : string) : option nat :=
  if starts_with fence s then
    option_map (fun i => 3 + i + 3) (find_fence (drop 3 s))
  else None.

(** [s.replace(re, '')] with the [g] flag, [span] giving the length of the
    match of [re] anchored at a position: the scan resumes after each
    match, [skip] counting the code units of the current match still to be
    dropped. *)
Fixpoint remove_all (span : string -> option nat) (skip : nat) (s : string)
    : string :=
  match s with
  | EmptyString => EmptyString
  | String c t =>
      match skip with
      | S k => remove_all span k t
      | O =>
          match span s with
          | Some (S n) => remove_all span n t
          | _ => String c (remove_all span 0 t)
          end
      end
  end.

(** [reply.replace(/```json[\s\S]*?```/gi, '')
         .replace(/```[\s\S]*?```/gi, '').trim()] *)
Definition cleanReply (reply : string) : string :=
  trim (remove_all fence_span 0 (remove_all json_fence_span 0 reply)).

(** The candidate text handed to [JSON.parse]: [jsonText]. *)
Definition jsonText (reply : string) : option string :=
  match match_json_fence reply with
  | Some g => Some g
  | None => match_braces reply
  end.

(* ===================================================================== *)
(** ** The API [handler] (pages/api/chat.ts) *)
(* ===================================================================== *)

(** [process.env] *)
Record Env : Type := mkEnv {
  OPENAI_API_KEY : option string;
  OPENAI_MODEL : option string
}.

(** The one outbound call of the handler: the POST to the upstream model.
    The body is kept in structured form: the model name, the envelope
    [{ message, state }] that is appended to the fixed system prompt, and
    the two sampling directives. *)
Record upstream_request (number : Type) : Type := mkUpstream {
  up_url : string;
  up_bearer : string;
  up_model : string;
  up_message : string;
  up_state : value number;
  up_temperature : Z;
  up_store : bool
}.

(** What [await fetch(...)] gives: a rejected promise, or a response with
    its status and the text of its body. *)
Inductive upstream_outcome : Type :=
| FetchRejected
| FetchResponse (status : nat) (text : string).

(** The [error] string of a failure response. *)
Inductive error_text : Type :=
| Literal (s : string)
| OpenAIError (errText : string)        (* `OpenAI error: ${errText}` *)
| NetworkFailure                        (* message of the rejected fetch *)
| Uncaught (e : exn).                   (* error?.message of a thrown error *)

(** The success bundle, [Id] being the type of the use-case ids. *)
Module Bundle.
Record t (number Id : Type) : Type := mk {
  reply : string;
  suggestions : option (list string);
  guidance : option (list string);
  questions : option (list string);
  examples : option (list string);
  roadmap : option (list (value number));
  stateUpdates : option (AgentStateOf Id);
  useCases : field (list (UseCase.t Id));
  raw : value number
}.
Arguments mk {number Id}.
Arguments reply {number Id}.
Arguments suggestions {number Id}.
Arguments guidance {number Id}.
Arguments questions {number Id}.
Arguments examples {number Id}.
Arguments roadmap {number Id}.
Arguments stateUpdates {number Id}.
Arguments useCases {number Id}.
Arguments raw {number Id}.
End Bundle.

Inductive payload (number Id : Type) : Type :=
| ErrorBody (error : error_text)
| Success (bundle : Bundle.t number Id).
Arguments ErrorBody {number Id} error.
Arguments Success {number Id} bundle.

Record response (number Id : Type) : Type := mkResponse {
  status : nat;
  headers : list (string * string);
  body : payload number Id
}.
Arguments mkResponse {number Id}.
Arguments status {number Id}.
Arguments headers {number Id}.
Arguments body {number Id}.

Record request (number : Type) : Type := mkRequest {
  method : string;
  req_body : value number       (* [undefined] when the request has none *)
}.

(** The variables the inner [try] block assigns. *)
Record structured (number : Type) : Type := mkStructured {
  s_suggestions : option (list string);
  s_guidance : option (list string);
  s_questions : option (list string);
  s_examples : option (list string);
  s_roadmap : option (list (value number));
  s_stateUpdates : option (AgentStateOf (value number))
}.

Definition double_quote : string := String (ascii_of_nat 34) EmptyString.
Definition line_feed : string := String (ascii_of_nat 10) EmptyString.

Section Handler.
Context {number : Type} `{JsNumber number}.

#[local] Abbreviation value := (value number) (only parsing).

(** [JSON.parse]: the parsed value, or the [SyntaxError] it throws. *)
Variable JSON_parse : string -> result value.

Variable clock : nat -> Z.

Variable env : Env.

(** [await fetch('https://api.openai.com/v1/responses', ...)] *)
Variable upstream : upstream_request number -> upstream_outcome.

Definition as_string (v : value) : string :=
  match v with
  | JStr s => s
  | _ => ""
  end.

(** [v?.[0]] *)
Definition first_opt (v : value) : value :=
  match v with
  | JArr (x :: _) => x
  | JStr (String c _) => JStr (String c EmptyString)
  | JObj props =>
      match lookup "0" props with
      | Some x => x
      | None => JUndefined
      end
  | _ => JUndefined
  end.

(** The [val] computed for one element [c] of a [content] array. *)
Definition content_text (c : value) : string :=
  let t := get_opt c "text" in
  if is_string t && truthy t then as_string t
  else
    let tv := get_opt t "value" in
    if is_string tv && truthy tv then as_string tv else "".

(** The strings pushed on [parts] for one [item] of [d.output]. *)
Definition item_parts (item : value) : list string :=
  match get_opt item "content" with
  | JArr content =>
      filter nonempty (map content_text content)
  | _ => []
  end.

(** [cc.map((x: any) => x?.text || '').join('\n')] *)
Definition join_texts (cc : list value) : result string :=
  parts <- map_indexed
             (fun x _ => to_String (or_else (get_opt x "text") (JStr ""))) 0 cc ;;
  Ok (join line_feed parts).

(** The tail of [extractText]: the chat-completion shape,
    [d.choices?.[0]?.message?.content]. *)
Definition chat_completion (d : value) : result string :=
  let cc :=
    get_opt (get_opt (first_opt (get_opt d "choices")) "message") "content" in
  match cc with
  | JStr s => Ok s
  | JArr xs => join_texts xs
  | _ => Ok ""
  end.

(** [extractText(data)] *)
Definition extractText (d : value) : result string :=
  if negb (truthy d) then Ok ""
  else
    let output_text := get_opt d "output_text" in
    if is_string output_text && nonempty (trim (as_string output_text))
    then Ok (as_string output_text)
    else
      match get_opt d "output" with
      | JArr output =>
          let parts := flat_map item_parts output in
          if nonempty (trim (join "" parts)) then Ok (join line_feed parts)
          else chat_completion d
      | _ => chat_completion d
      end.

(** [Array.isArray(obj?.k) ? obj.k.filter(x => typeof x === 'string')
                                  .slice(0, limit) : undefined] *)
Definition string_list (obj : value) (k : string) (limit : nat)
    : option (list string) :=
  match get_opt obj k with
  | JArr xs => Some (firstn limit (strings_of xs))
  | _ => None
  end.

Definition nothing_structured : structured number :=
  mkStructured None None None None None None.

(** The inner [try { ... } catch (err) { console.warn(...) }]: what the six
    variables hold after it.  An exception of [JSON.parse] leaves all of
    them [undefined]; an exception of the sanitizer leaves [stateUpdates]
    [undefined] and the others as assigned before it. *)
Definition parse_structured (text : string) : structured number :=
  match JSON_parse text with
  | Throw _ => nothing_structured
  | Ok obj =>
      let su := get_opt obj "stateUpdates" in
      mkStructured
        (string_list obj "suggestions" 4)
        (string_list obj "guidance" 6)
        (string_list obj "questions" 3)
        (string_list obj "examples" 3)
        (match get_opt obj "roadmap" with
         | JArr r => Some r
         | _ => None
         end)
        (if truthy su && is_object su then
           match sanitizeStateUpdates clock su with
           | Ok r => r
           | Throw _ => None
           end
         else None)
  end.

(** [if (jsonText) { ... }]: the empty string is falsy. *)
Definition extract_structured (reply : string) : structured number :=
  match jsonText reply with
  | Some text => if nonempty text then parse_structured text
                 else nothing_structured
  | None => nothing_structured
  end.

(** The bundle of the [200] response. *)
Definition bundle_of (reply : string) (data : value)
    : Bundle.t number value :=
  let s := extract_structured reply in
  Bundle.mk (cleanReply reply)
    (s_suggestions s) (s_guidance s) (s_questions s) (s_examples s)
    (s_roadmap s) (s_stateUpdates s)
    (match s_stateUpdates s with
     | Some su => match useCases su with
                  | Val l => Val l
                  | _ => Undef
                  end
     | None => Undef
     end)
    data.

Definition fail (code : nat) (e : error_text) : response number value :=
  mkResponse code [] (ErrorBody e).

Definition ok_status (code : nat) : bool := ((200 <=? code) && (code <=? 299))%nat.

(** The [try] block of the handler once the request is built. *)
Definition call_model (r : upstream_request number) : response number value :=
  match upstream r with
  | FetchRejected => fail 500 NetworkFailure
  | FetchResponse code text =>
      if negb (ok_status code) then fail code (OpenAIError text)
      else
        match JSON_parse text with
        | Throw e => fail 500 (Uncaught e)
        | Ok data =>
            match extractText data with
            | Throw e => fail 500 (Uncaught e)
            | Ok reply => mkResponse 200 [] (Success (bundle_of reply data))
            end
        end
  end.

(** [(typeof model === 'string' && model.trim()) ||
     process.env.OPENAI_MODEL || 'gpt-4o-mini'] *)
Definition selectedModel (model : value) : string :=
  let chosen := if is_string model then trim (as_string model) else "" in
  if nonempty chosen then chosen
  else
    match OPENAI_MODEL env with
    | Some m => if nonempty m then m else "gpt-4o-mini"
    | None => "gpt-4o-mini"
    end.

(** [handler(req, res)]: the outbound calls it made, in order, and the
    response it sent. *)
Definition handler (req : request number)
    : list (upstream_request number) * response number value :=
  if negb (String.eqb (method req) "POST") then
    ([], mkResponse 405 [("Allow", "POST")] (ErrorBody (Literal "Method Not Allowed")))
  else
    let b := or_else (req_body req) (JObj []) in
    let input := get_opt b "input" in
    let model := get_opt b "model" in
    let state := get_opt b "state" in
    if negb (truthy input) || negb (is_string input) then
      ([], fail 400 (Literal ("Missing " ++ double_quote ++ "input"
                                ++ double_quote ++ " string in body")))
    else
      match OPENAI_API_KEY env with
      | Some apiKey =>
          if nonempty apiKey then
            let r := mkUpstream "https://api.openai.com/v1/responses" apiKey
                       (selectedModel model) (as_string input)
                       (match state with
                        | JUndefined | JNull => JObj []
                        | _ => state
                        end)
                       0 false in
            ([r], call_model r)
          else ([], fail 500 (Literal "OPENAI_API_KEY is not set on the server"))
      | None => ([], fail 500 (Literal "OPENAI_API_KEY is not set on the server"))
      end.

End Handler.

(* ===================================================================== *)
(** ** The client: [sendMessage], [selectRole], [saveOrg] *)
(* ===================================================================== *)

(** The bundle as the client reads it off the wire. *)
Definition json_bundle {number : Type} (b : Bundle.t number (value number))
    : option (Bundle.t number string) :=
  match Bundle.stateUpdates b with
  | Some su =>
      match json_update su, json_useCases_field (Bundle.useCases b) with
      | Some su', Some ucs =>
          Some (Bundle.mk (Bundle.reply b) (Bundle.suggestions b)
                  (Bundle.guidance b) (Bundle.questions b) (Bundle.examples b)
                  (Bundle.roadmap b) (Some su') ucs (Bundle.raw b))
      | _, _ => None
      end
  | None =>
      match json_useCases_field (Bundle.useCases b) with
      | Some ucs =>
          Some (Bundle.mk (Bundle.reply b) (Bundle.suggestions b)
                  (Bundle.guidance b) (Bundle.questions b) (Bundle.examples b)
                  (Bundle.roadmap b) None ucs (Bundle.raw b))
      | None => None
      end
  end.

Module Client.

(** A line of the transcript. *)
Inductive line : Type :=
| FromUser (text : string)
| FromBot (text : string)
| FromBotError (e : error_text)       (* a non-empty err.error *)
| FromBotException.                   (* error?.message || 'Network error' *)

Record OrgDraft : Type := mkDraft {
  d_name : string;
  d_country : string;
  d_industry : string;
  d_size : string
}.

(** The React state of the page. *)
Record t : Type := mk {
  message : string;
  messages : list line;
  loading : bool;
  agentState : AgentState;
  suggestions : list string;
  guidance : list string;
  questions : list string;
  orgDraft : OrgDraft
}.

(** The body of the POST to [/api/chat]. *)
Record api_request : Type := mkApi {
  input : string;
  state : AgentState
}.

Inductive api_outcome (number : Type) : Type :=
| ApiUnreachable
| ApiResponse (r : response number string).
Arguments ApiUnreachable {number}.
Arguments ApiResponse {number} r.

Definition with_agentState (f : AgentState -> AgentState) (c : t) : t :=
  mk (message c) (messages c) (loading c) (f (agentState c))
     (suggestions c) (guidance c) (questions c) (orgDraft c).

Definition say (l : line) (c : t) : t :=
  mk (message c) (messages c ++ [l]) (loading c) (agentState c)
     (suggestions c) (guidance c) (questions c) (orgDraft c).

Definition set_lists (s g q : option (list string)) (c : t) : t :=
  mk (message c) (messages c) (loading c) (agentState c)
     (match s with Some l => l | None => suggestions c end)
     (match g with Some l => l | None => guidance c end)
     (match q with Some l => l | None => questions c end)
     (orgDraft c).

Definition set_loading (b : bool) (c : t) : t :=
  mk (message c) (messages c) b (agentState c)
     (suggestions c) (guidance c) (questions c) (orgDraft c).

Definition clear_message (c : t) : t :=
  mk "" (messages c) (loading c) (agentState c)
     (suggestions c) (guidance c) (questions c) (orgDraft c).

(** The [else] branch of [sendMessage]: a success response. *)
Definition receive {number : Type} (data : Bundle.t number string) (c : t) : t :=
  let reply :=
    let r := trim (Bundle.reply data) in
    if nonempty r then r else "(no response)" in
  let c := say (FromBot reply) c in
  let c := set_lists (Bundle.suggestions data) (Bundle.guidance data)
             (Bundle.questions data) c in
  let c :=
    match Bundle.stateUpdates data with
    | Some su => with_agentState (mergeState (Some su)) c
    | None => c
    end in
  match Bundle.useCases data with
  | Val (u :: us) =>
      with_agentState
        (mergeState (Some (mkState Absent Absent (Val (u :: us))))) c
  | _ => c
  end.

(** [sendMessage(text)]: the new state of the page and the requests sent
    to [/api/chat]. *)
Definition sendMessage {number : Type}
    (api : api_request -> api_outcome number) (text : string) (c : t)
    : t * list api_request :=
  let userText := trim text in
  if negb (nonempty userText) || loading c then (c, [])
  else
    let c := set_loading true (clear_message (say (FromUser userText) c)) in
    let rq := mkApi userText (agentState c) in
    let c :=
      match api rq with
      | ApiUnreachable => say FromBotException c
      | ApiResponse r =>
          if ok_status (status r) then
            match body r with
            | Success data => receive data c
            | ErrorBody _ => say (FromBot "(no response)") c
            end
          else
            match body r with
            | ErrorBody (Literal "") | Success _ =>
                say (FromBot ("Request failed with "
                                ++ decimal (Z.of_nat (status r)))) c
            | ErrorBody e => say (FromBotError e) c
            end
      end in
    (set_loading false c, [rq]).

(** [selectRole(role)] *)
Definition selectRole (role : string) (c : t) : t :=
  let c := with_agentState (mergeState (Some (mkState Absent (Val [role]) Absent))) c in
  let c := mk (message c) (messages c) (loading c) (agentState c)
              [] (guidance c) (questions c) (orgDraft c) in
  say (FromBot ("Role set to " ++ role
                  ++ ". Please provide organization details below.")) c.

(** [saveOrg()] *)
Definition saveOrg (c : t) : t :=
  let clean :=
    Org.mk (Val (trim (d_name (orgDraft c))))
           (Val (trim (d_country (orgDraft c))))
           (Val (trim (d_industry (orgDraft c))))
           (Val (trim (d_size (orgDraft c)))) in
  let c := with_agentState (mergeState (Some (mkState (Val clean) Absent Absent))) c in
  say (FromBot "Organization details saved. Now please provide your AI use cases.") c.

End Client.

(* ===================================================================== *)
(** ** Vocabulary of the statements *)
(* ===================================================================== *)

(** An own property of a parsed object; arrays and primitives have none
    under the names the program reads. *)
Definition own_property {number : Type} (o : value number) (k : string)
    : option (value number) :=
  match o with
  | JObj props => lookup k props
  | _ => None
  end.

(** How the sanitizer fills one string property [f] of its output from the
    property [k] of the input object [o]: a string is copied only from a
    property the input has, it is the [String(...)] of that property, every
    truthy property is copied, and a property the input lacks is left
    [undefined] (not the empty string), hence unwritten in the JSON sent to
    the client. *)
Definition copied_if_present {number : Type} `{JsNumber number}
    (o : value number) (k : string) (f : field string) : Prop :=
  (forall s, f = Val s ->
     exists x, own_property o k = Some x /\ truthy x = true /\ to_String x = Ok s) /\
  (forall x, own_property o k = Some x -> truthy x = true ->
     exists s, to_String x = Ok s /\ f = Val s) /\
  (own_property o k = None -> f = Undef /\ json_field f = Absent).

(** [String(v)] returns. *)
Definition convertible {number : Type} `{JsNumber number} (v : value number)
    : Prop :=
  exists s, to_String v = Ok s.

(** A property the sanitizer either skips (falsy) or can convert. *)
Definition safe_scalar {number : Type} `{JsNumber number} (v : value number)
    : Prop :=
  truthy v = false \/ convertible v.

Definition nullish {number : Type} (v : value number) : bool :=
  match v with
  | JUndefined | JNull => true
  | _ => false
  end.

(** An element of [useCases] on which the callback of [map] returns. *)
Definition safe_element {number : Type} `{JsNumber number} (u : value number)
    : Prop :=
  nullish u = false /\
  safe_scalar (get_opt u "name") /\
  safe_scalar (get_opt u "description") /\
  safe_scalar (get_opt u "process") /\
  safe_scalar (get_opt u "model") /\
  safe_scalar (get_opt u "owner").

Definition safe_org {number : Type} `{JsNumber number} (o : value number)
    : Prop :=
  safe_scalar (get_opt o "name") /\
  safe_scalar (get_opt o "country") /\
  safe_scalar (get_opt o "industry") /\
  safe_scalar (get_opt o "size").

(** [u.id === k] *)
Definition has_id (k : string) (u : UseCaseT) : bool :=
  String.eqb (UseCase.id u) k.

Definition ids (us : list UseCaseT) : list string := map UseCase.id us.

(** No two entries of the state's [useCases] have the same [id]. *)
Definition unique_ids (s : AgentState) : Prop :=
  NoDup (ids (or_default (useCases s) [])).

(** What the successive incoming records with one [id] make of the entry
    found under it. *)
Definition absorb (found : option UseCaseT) (us : list UseCaseT)
    : option UseCaseT :=
  fold_left (fun o u => Some (spread_onto o u)) us found.

(** Every value of the map is stored under its own [id]. *)
Definition keyed (m : JsMap.t UseCaseT) : Prop :=
  Forall (fun kv => UseCase.id (snd kv) = fst kv) m.

(** Invariant of both loops: distinct keys, each value under its [id]. *)
Definition well_keyed (m : JsMap.t UseCaseT) : Prop :=
  NoDup (JsMap.keys m) /\ keyed m.

(** Field-level union at one property: a property the incoming record has
    takes the incoming value, one it lacks keeps the previous value. *)
Definition unions {A : Type} (old new res : field A) : Prop :=
  (new = Absent -> res = old) /\ (new <> Absent -> res = new).

Definition field_union (e u r : UseCaseT) : Prop :=
  UseCase.id r = UseCase.id u /\
  unions (UseCase.name e) (UseCase.name u) (UseCase.name r) /\
  unions (UseCase.description e) (UseCase.description u) (UseCase.description r) /\
  unions (UseCase.process e) (UseCase.process u) (UseCase.process r) /\
  unions (UseCase.inScope e) (UseCase.inScope u) (UseCase.inScope r) /\
  unions (UseCase.risk e) (UseCase.risk u) (UseCase.risk r) /\
  unions (UseCase.model e) (UseCase.model u) (UseCase.model r) /\
  unions (UseCase.data e) (UseCase.data u) (UseCase.data r) /\
  unions (UseCase.subjects e) (UseCase.subjects u) (UseCase.subjects r) /\
  unions (UseCase.owner e) (UseCase.owner u) (UseCase.owner r) /\
  unions (UseCase.jurisdictions e) (UseCase.jurisdictions u) (UseCase.jurisdictions r).

(** The same for a property as the sanitizer wrote it: a value it set is
    taken, a property it left [undefined] keeps the previous value. *)
Definition takes_sanitized {A : Type} (san old res : field A) : Prop :=
  (forall v, san = Val v -> res = Val v) /\
  (san = Undef -> res = old) /\
  san <> Absent.

Definition sanitized_union {number : Type} (s : UseCase.t (value number))
    (e r : UseCaseT) : Prop :=
  UseCase.id s = JStr (UseCase.id r) /\
  takes_sanitized (UseCase.name s) (UseCase.name e) (UseCase.name r) /\
  takes_sanitized (UseCase.description s) (UseCase.description e) (UseCase.description r) /\
  takes_sanitized (UseCase.process s) (UseCase.process e) (UseCase.process r) /\
  takes_sanitized (UseCase.inScope s) (UseCase.inScope e) (UseCase.inScope r) /\
  takes_sanitized (UseCase.risk s) (UseCase.risk e) (UseCase.risk r) /\
  takes_sanitized (UseCase.model s) (UseCase.model e) (UseCase.model r) /\
  takes_sanitized (UseCase.data s) (UseCase.data e) (UseCase.data r) /\
  takes_sanitized (UseCase.subjects s) (UseCase.subjects e) (UseCase.subjects r) /\
  takes_sanitized (UseCase.owner s) (UseCase.owner e) (UseCase.owner r) /\
  takes_sanitized (UseCase.jurisdictions s) (UseCase.jurisdictions e) (UseCase.jurisdictions r).

(** A record with only its [id]. *)
Definition bare (k : string) : UseCaseT :=
  UseCase.mk k Absent Absent Absent Absent Absent Absent Absent Absent Absent Absent.

(** The state reached from the initial one by a sequence of calls of
    [mergeState]. *)
Definition after_merges (updates : list (option AgentState)) : AgentState :=
  fold_left (fun s u => mergeState u s) updates initialAgentState.

(** Index of the first place where [s] has [```json], in any case. *)
Fixpoint first_json_opening (s : string) : option nat :=
  if starts_with_ci "```json" s then Some 0
  else match s with
       | EmptyString => None
       | String _ t => option_map S (first_json_opening t)
       end.




(** A fenced block tagged as JSON, and a fenced block of anything else. *)
Definition json_block (tag interior : string) : string :=
  fence ++ tag ++ interior ++ fence.


(* ===================================================================== *)
(** ** A concrete number type for closed examples *)
(* ===================================================================== *)

(** Integer-valued numbers, for concrete payloads such as [{ "id": 7 }].
    [Number::toString] prints an integer as its plain decimal digits up
    to a magnitude of [10^21] and in exponent form from there on; the
    closed examples stay far below that bound, and only there does this
    instance stand for the numbers of the program. *)
#[export] Instance Z_number : JsNumber Z := {|
  number_truthy := fun z => negb (Z.eqb z 0);
  number_to_string := decimal
|}.

(** A clock stopped at one instant, and a [JSON.parse] that rejects every
    text, for closed examples that do not depend on either. *)
Definition frozen_clock : nat -> Z := fun _ => 1730000000000%Z.

Definition reject_all : string -> result (value Z) := fun _ => Throw SyntaxError.

(** A [JSON.parse] that gives the same upstream body for every text, and
    an upstream that always answers [200]. *)
Definition parse_hello : string -> result (value Z) :=
  fun _ => Ok (JObj [("output_text", JStr "Hello")]).

Definition always_ok : upstream_request Z -> upstream_outcome :=
  fun _ => FetchResponse 200 "{}".

Definition test_env : Env := mkEnv (Some "sk-test") None.

(** The error of the input validation. *)
Definition missing_input : error_text :=
  Literal ("Missing " ++ double_quote ++ "input" ++ double_quote
             ++ " string in body").

(** The bundle of a reply from which nothing structured was extracted. *)
Definition narrative_only {number : Type} (reply : string) (data : value number)
    : Bundle.t number (value number) :=
  Bundle.mk (cleanReply reply) None None None None None None Undef data.

(** The records and states of the worked examples. *)
Definition uc1_named : UseCaseT :=
  UseCase.mk "uc-1" (Val "A") Absent Absent Absent Absent Absent Absent
    Absent Absent Absent.

Definition uc1_rated : UseCaseT :=
  UseCase.mk "uc-1" Absent Absent Absent Absent (Val high) Absent Absent
    Absent Absent Absent.

Definition uc1_merged : UseCaseT :=
  UseCase.mk "uc-1" (Val "A") Absent Absent Absent (Val high) Absent Absent
    Absent Absent Absent.

Definition only_useCases (us : list UseCaseT) : AgentState :=
  mkState Absent Absent (Val us).

Definition only_roles (rs : list string) : AgentState :=
  mkState Absent (Val rs) Absent.

(** [{ "org": { "name": "Acme", "size": 250 } }] and what the sanitizer
    makes of it. *)
Definition org_payload : value Z :=
  JObj [("org", JObj [("name", JStr "Acme"); ("size", JNum 250%Z)])].

Definition org_sanitized : AgentStateOf (value Z) :=
  mkState (Val (Org.mk (Val "Acme") Undef Undef (Val "250"))) Absent Absent.

(** [{ "useCases": [{ "id": "" }, { "id": "uc-7" }] }] and what the
    sanitizer makes of it. *)
Definition ids_payload : value Z :=
  JObj [("useCases", JArr [JObj [("id", JStr "")]; JObj [("id", JStr "uc-7")]])].

Definition all_undefined (i : value Z) : UseCase.t (value Z) :=
  UseCase.mk i Undef Undef Undef Undef Undef Undef Undef Undef Undef Undef.

Definition ids_sanitized : list (UseCase.t (value Z)) :=
  [all_undefined (JStr "uc-1730000000000-0"); all_undefined (JStr "uc-7")].

Definition blank_request : request Z :=
  mkRequest "POST" (JObj [("input", JStr "   ")]).

Definition empty_request : request Z :=
  mkRequest "POST" (JObj [("input", JStr "")]).

Definition idle_client : Client.t :=
  Client.mk "" [] false initialAgentState [] [] []
    (Client.mkDraft "" "" "" "").







(** A reply whose brace-matched candidate is not JSON. *)
Definition broken_reply : string := "Noted. {not: valid json}  ".

(* ===================================================================== *)
(** ** The step indicator and further vocabulary *)
(* ===================================================================== *)

(** [activeStep] of the page component: 1 without roles, 2 with roles and
    without use cases, 3 otherwise. *)
Definition activeStep (s : AgentState) : nat :=
  match provided (roles s) with
  | None | Some [] => 1
  | Some (_ :: _) =>
      match provided (useCases s) with
      | None | Some [] => 2
      | Some (_ :: _) => 3
      end
  end.

(** The literal of a risk level. *)
Definition risk_name (r : Risk) : string :=
  match r with
  | minimal => "minimal"
  | limited => "limited"
  | high => "high"
  | prohibited => "prohibited"
  | unknown => "unknown"
  end.

(** A list variable of the bundle holds at most [n] strings. *)
Definition capped (n : nat) (l : option (list string)) : Prop :=
  match l with
  | Some xs => List.length xs <= n
  | None => True
  end.

Definition starts_with_space (s : string) : bool :=
  match s with
  | String c _ => is_space c
  | EmptyString => false
  end.

Fixpoint ends_with_space (s : string) : bool :=
  match s with
  | EmptyString => false
  | String c EmptyString => is_space c
  | String _ t => ends_with_space t
  end.

(** [s] has no [{], resp. no [}]. *)
Fixpoint lacks (c : ascii) (s : string) : bool :=
  match s with
  | EmptyString => true
  | String x t => negb (Ascii.eqb x c) && lacks c t
  end.

(** [s] between double quotes, as a JSON text writes a string without
    characters to escape. *)
Definition quoted (s : string) : string := double_quote ++ s ++ double_quote.

(** A model reply in the shape the system prompt asks for: the structured
    block as a JSON text and as the value [JSON.parse] gives for it. *)
Definition registry_update : value Z :=
  JObj [("roles", JArr [JStr "deployer"]);
        ("useCases",
         JArr [JObj [("id", JStr "uc-1");
                     ("name", JStr "Recommendation Engine");
                     ("risk", JStr "limited")]])].

Definition registry_block : value Z :=
  JObj [("suggestions", JArr [JStr "Add another AI use case"]);
        ("stateUpdates", registry_update)].

Definition registry_text : string :=
  "{" ++ quoted "suggestions" ++ ":[" ++ quoted "Add another AI use case" ++ "],"
    ++ quoted "stateUpdates" ++ ":{"
    ++ quoted "roles" ++ ":[" ++ quoted "deployer" ++ "],"
    ++ quoted "useCases" ++ ":[{"
    ++ quoted "id" ++ ":" ++ quoted "uc-1" ++ ","
    ++ quoted "name" ++ ":" ++ quoted "Recommendation Engine" ++ ","
    ++ quoted "risk" ++ ":" ++ quoted "limited" ++ "}]}}".

(** [JSON.parse] on that one text, white space around it allowed; every
    other text is rejected. *)
Definition parse_registry : string -> result (value Z) :=
  fun text =>
    if String.eqb (trim text) registry_text then Ok registry_block
    else Throw SyntaxError.

Definition registry_reply : string :=
  "You act as a deployer. "
    ++ json_block "json" (line_feed ++ registry_text ++ line_feed).

(** Every use case of the bundle's [stateUpdates] has a string for its
    [id], as the declared type of the state has it. *)
Definition string_ids {number : Type} (b : Bundle.t number (value number))
    : Prop :=
  forall su l,
    Bundle.stateUpdates b = Some su -> useCases su = Val l ->
    forall u, In u l -> exists s, UseCase.id u = JStr s.

(** A list variable [f] of the bundle against the property [k] of the
    parsed block: for an array, the string elements in their order, cut
    after the first [n]; for anything else, nothing. *)
Definition list_cut {number : Type} (obj : value number) (k : string) (n : nat)
    (f : option (list string)) : Prop :=
  (forall xs, get_opt obj k = JArr xs -> f = Some (firstn n (strings_of xs))) /\
  (forall l, get_opt obj k = JArr (map JStr l) -> f = Some (firstn n l)) /\
  (isArray (get_opt obj k) = false -> f = None).

(** A structured block with six suggestions, one of them not a string, and
    with [questions] that is not an array. *)
Definition crowded_text : string :=
  "{" ++ quoted "suggestions" ++ ":[" ++ quoted "a" ++ ",7," ++ quoted "b" ++ ","
    ++ quoted "c" ++ "," ++ quoted "d" ++ "," ++ quoted "e" ++ "],"
    ++ quoted "questions" ++ ":" ++ quoted "none" ++ "}".

Definition crowded_block : value Z :=
  JObj [("suggestions",
         JArr [JStr "a"; JNum 7%Z; JStr "b"; JStr "c"; JStr "d"; JStr "e"]);
        ("questions", JStr "none")].

Definition parse_crowded : string -> result (value Z) :=
  fun text =>
    if String.eqb (trim text) crowded_text then Ok crowded_block
    else Throw SyntaxError.

Definition crowded_reply : string :=
  "Next steps. " ++ json_block "json" (line_feed ++ crowded_text ++ line_feed).

Definition uc1_recommendation : UseCaseT :=
  UseCase.mk "uc-1" (Val "Recommendation Engine") Absent Absent Absent
    (Val limited) Absent Absent Absent Absent Absent.

(** A string property is copied as it is, the empty string counting as
    missing; an array of strings is copied as it is. *)
Definition keeps_string {number : Type} (x : value number) (f : field string)
    : Prop :=
  forall s, x = JStr s -> f = if nonempty s then Val s else Undef.

Definition keeps_strings {number : Type} (x : value number)
    (f : field (list string)) : Prop :=
  forall l, x = JArr (map JStr l) -> f = Val l.

(** What [renderObject] builds: a [<span>] with a text, or a [<ul>] of
    [<li>]; the [<li>] of an array holds the rendering of the element, the
    [<li>] of an object holds the key and either a nested rendering or a
    text. *)
Inductive element : Type :=
| span (text : string)
| ul (items : list li)
with li : Type :=
| li_item (child : element)
| li_entry (key : string) (shown : element + string).

Section Rendering.
Context {number : Type} `{JsNumber number}.

(** [renderObject(obj)]; [Object.entries] lists the properties in the order
    of the object. *)
Fixpoint renderObject (obj : value number) : result element :=
  match obj with
  | JArr elems =>
      items <- (fix each (l : list (value number)) : result (list li) :=
                  match l with
                  | [] => Ok []
                  | item :: rest =>
                      e <- renderObject item ;;
                      es <- each rest ;;
                      Ok (li_item e :: es)
                  end) elems ;;
      Ok (ul items)
  | JObj props =>
      items <- (fix each (l : list (string * value number)) : result (list li) :=
                  match l with
                  | [] => Ok []
                  | (key, v) :: rest =>
                      shown <- (if is_object v
                                then e <- renderObject v ;; Ok (inl e)
                                else s <- to_String v ;; Ok (inr s)) ;;
                      es <- each rest ;;
                      Ok (li_entry key shown :: es)
                  end) props ;;
      Ok (ul items)
  | _ => s <- to_String obj ;; Ok (span s)
  end.

End Rendering.

(** Further values of the worked examples. *)
Definition uc1_sanitized : UseCase.t (value Z) :=
  UseCase.mk (JStr "uc-1") (Val "Recommendation Engine") Undef Undef Undef
    (Val limited) Undef Undef Undef Undef Undef.

Definition registry_sanitized : AgentStateOf (value Z) :=
  mkState Absent (Val ["deployer"]) (Val [uc1_sanitized]).

Definition extreme_risk : value Z :=
  JObj [("id", JStr "uc-1"); ("risk", JStr "extreme")].

Definition null_block : value Z :=
  JObj [("suggestions", JArr [JStr "Retry"]);
        ("stateUpdates",
         JObj [("roles", JArr [JStr "deployer"]);
               ("useCases", JArr [JObj [("id", JStr "uc-1")]; JNull])])].

Definition parse_null_block : string -> result (value Z) :=
  fun _ => Ok null_block.

Definition roles_bundle : Bundle.t Z string :=
  Bundle.mk "Noted." None None None None None
    (Some (only_roles ["deployer"])) Absent JNull.

Definition answer_roles : Client.api_request -> Client.api_outcome Z :=
  fun _ => Client.ApiResponse (mkResponse 200 [] (Success roles_bundle)).

Definition provider_with_uc1 : AgentState :=
  mkState Absent (Val ["Provider"]) (Val [uc1_named]).

(* ===================================================================== *)
(** * Properties *)
(* ===================================================================== *)

(** Inversion of a sequence of [bind]s that returned. *)
Ltac bind_inv H :=
  repeat match type of H with
         | bind ?c _ = Ok _ =>
             let E := fresh "E" in
             destruct c eqn:E; simpl in H; [ | discriminate H ]
         end.

Lemma bind_ok {A B : Type} (c : result A) (k : A -> result B) (b : B) :
  bind c k = Ok b -> exists a, c = Ok a /\ k a = Ok b.
Proof.
  destruct c as [a|e]; simpl; intros Hk; [ eauto | discriminate ].
Qed.

(* --------------------------------------------------------------------- *)
(** ** The sanitizer *)
(* --------------------------------------------------------------------- *)

Section SanitizerFacts.
Context {number : Type} `{JsNumber number}.
Variable clock : nat -> Z.

#[local] Abbreviation value := (value number) (only parsing).

Lemma map_indexed_nth {A B : Type} (f : A -> nat -> result B) :
  forall (xs : list A) (i : nat) (ys : list B),
    map_indexed f i xs = Ok ys ->
    length ys = length xs /\
    forall n y, nth_error ys n = Some y ->
      exists x, nth_error xs n = Some x /\ f x (i + n) = Ok y.
Proof.
  induction xs as [|x xs IH]; intros i ys Hm; simpl in Hm.
  - injection Hm as <-. split; [ reflexivity | ].
    intros [|n] y Hy; discriminate Hy.
  - bind_inv Hm. injection Hm as <-.
    destruct (IH _ _ E0) as [Hlen Hnth].
    split; [ simpl; congruence | ].
    intros [|n] y Hy; simpl in Hy.
    + injection Hy as <-. exists x. rewrite Nat.add_0_r. auto.
    + destruct (Hnth n y Hy) as (x' & Hx' & Hf).
      exists x'. split; [ exact Hx' | ].
      rewrite <- Hf. f_equal. lia.
Qed.

Lemma fallback_id_nonempty (idx : nat) : nonempty (fallback_id clock idx) = true.
Proof. reflexivity. Qed.

Lemma sanitize_useCase_id (u : value) (idx : nat) (r : UseCase.t value) :
  sanitize_useCase clock u idx = Ok r ->
  exists v, get u "id" = Ok v /\
            UseCase.id r = or_else v (JStr (fallback_id clock idx)).
Proof.
  unfold sanitize_useCase. intros Hs.
  destruct (get u "id") as [v|e] eqn:Eid; simpl in Hs; [ | discriminate ].
  exists v. split; [ reflexivity | ].
  bind_inv Hs. injection Hs as <-. reflexivity.
Qed.

Lemma or_else_fallback_truthy (v : value) (idx : nat) :
  truthy (or_else v (JStr (fallback_id clock idx))) = true.
Proof.
  unfold or_else. destruct (truthy v) eqn:Ev; [ exact Ev | ].
  apply fallback_id_nonempty.
Qed.

(** What [sanitizeStateUpdates] returns in [useCases] comes from the
    [map] over the input's array. *)
Lemma sanitize_useCases_inv (input : value) (su : AgentStateOf value)
    (out : list (UseCase.t value)) :
  sanitizeStateUpdates clock input = Ok (Some su) ->
  useCases su = Val out ->
  exists us, get input "useCases" = Ok (JArr us) /\
             map_indexed (sanitize_useCase clock) 0 us = Ok out.
Proof.
  unfold sanitizeStateUpdates. intros Hs Hout.
  destruct (negb (truthy input) || negb (is_object input)); [ discriminate | ].
  apply bind_ok in Hs. destruct Hs as (io & _ & Hs).
  apply bind_ok in Hs. destruct Hs as (so & _ & Hs).
  apply bind_ok in Hs. destruct Hs as (ir & _ & Hs).
  apply bind_ok in Hs. destruct Hs as (iu & Hiu & Hs).
  apply bind_ok in Hs. destruct Hs as (suu & Hsuu & Hs).
  injection Hs as <-. simpl in Hout. subst suu.
  destruct iu; try discriminate Hsuu.
  apply bind_ok in Hsuu. destruct Hsuu as (l & Hl & Hv).
  injection Hv as <-. eauto.
Qed.

(** C10.  Every use case the sanitizer emits has a truthy [id]: the record
    at position [n] carries the [id] of the [n]-th input element when that
    is truthy, and otherwise (absent, empty string, 0, null, false) the
    synthesized string [uc-<Date.now()>-<n>], which is not empty. *)
Theorem sanitize_ids_truthy (input : value) (su : AgentStateOf value)
    (out : list (UseCase.t value)) :
  sanitizeStateUpdates clock input = Ok (Some su) ->
  useCases su = Val out ->
  exists us,
    get input "useCases" = Ok (JArr us) /\
    length out = length us /\
    forall n r, nth_error out n = Some r ->
      truthy (UseCase.id r) = true /\
      exists u v,
        nth_error us n = Some u /\ get u "id" = Ok v /\
        (truthy v = true -> UseCase.id r = v) /\
        (truthy v = false ->
           UseCase.id r =
             JStr ("uc-" ++ decimal (clock n) ++ "-" ++ decimal (Z.of_nat n))).
Proof.
  intros Hs Hout.
  destruct (sanitize_useCases_inv _ Hs Hout) as (us & Hget & Hmap).
  exists us. split; [ exact Hget | ].
  destruct (map_indexed_nth _ _ _ Hmap) as [Hlen Hnth].
  split; [ exact Hlen | ].
  intros n r Hr.
  destruct (Hnth n r Hr) as (u & Hu & Hf). simpl in Hf.
  destruct (sanitize_useCase_id _ _ Hf) as (v & Hv & Hid).
  split.
  - rewrite Hid. apply or_else_fallback_truthy.
  - exists u, v. repeat split; try assumption.
    + intros Ht. rewrite Hid. unfold or_else. rewrite Ht. reflexivity.
    + intros Ht. rewrite Hid. unfold or_else. rewrite Ht. reflexivity.
Qed.

End SanitizerFacts.

Section SanitizerOrg.
Context {number : Type} `{JsNumber number}.
Variable clock : nat -> Z.

#[local] Abbreviation value := (value number) (only parsing).

Lemma string_or_undefined_inv (x : value) (f : field string) :
  string_or_undefined x = Ok f ->
  (truthy x = true /\ exists s, to_String x = Ok s /\ f = Val s) \/
  (truthy x = false /\ f = Undef).
Proof.
  unfold string_or_undefined. destruct (truthy x).
  - intros Hf. apply bind_ok in Hf. destruct Hf as (s & Hs & Hf).
    injection Hf as <-. left. eauto.
  - intros Hf. injection Hf as <-. right. auto.
Qed.

Lemma get_own_property (o : value) (k : string) (x : value) :
  get o k = Ok x ->
  own_property o k = Some x \/ (own_property o k = None /\ x = JUndefined).
Proof.
  destruct o; simpl; try discriminate;
    try (intros Hx; injection Hx as <-; right; split; reflexivity).
  destruct (lookup k props); intros Hx; injection Hx as <-; auto.
Qed.

Lemma copied_from_get (o : value) (k : string) (x : value) (f : field string) :
  get o k = Ok x -> string_or_undefined x = Ok f -> copied_if_present o k f.
Proof.
  intros Hget Hf.
  destruct (string_or_undefined_inv _ Hf) as [(Ht & s & Hs & ->)|(Ht & ->)];
    destruct (get_own_property _ _ Hget) as [Hown|(Hown & ->)];
    unfold copied_if_present; rewrite Hown;
    (split; [ | split ]); try discriminate.
  - intros s' Hs'. injection Hs' as <-. eauto.
  - intros x' Hx' _. injection Hx' as <-. eauto.
  - intros x' Hx' Ht'. injection Hx' as <-. congruence.
  - intros _. split; reflexivity.
Qed.

Lemma sanitize_org_inv (o : value) (so : Org.t) :
  sanitize_org o = Ok so ->
  copied_if_present o "name" (Org.name so) /\
  copied_if_present o "country" (Org.country so) /\
  copied_if_present o "industry" (Org.industry so) /\
  copied_if_present o "size" (Org.size so).
Proof.
  unfold sanitize_org. intros Hs. bind_inv Hs. injection Hs as <-. simpl.
  split; [ | split; [ | split ] ]; eapply copied_from_get; eassumption.
Qed.

(** C3, the failing input.  On the payload [{ "useCases": [null] }] the
    sanitizer reads [u.id] of [null] and throws a [TypeError]. *)
Theorem sanitize_throws_on_null_element :
  sanitizeStateUpdates clock (JObj [("useCases", JArr [JNull])]) = Throw TypeError.
Proof. reflexivity. Qed.

(** A value that is not object-shaped gives the result [undefined], for
    which [mergeState] does nothing. *)
Lemma sanitize_non_object (input : value) :
  truthy input = false \/ is_object input = false ->
  sanitizeStateUpdates clock input = Ok None /\
  forall prev, mergeState None prev = prev.
Proof.
  intros Hin. split; [ | reflexivity ].
  unfold sanitizeStateUpdates.
  destruct Hin as [-> | ->]; simpl; [ reflexivity | ].
  rewrite orb_true_r. reflexivity.
Qed.

(** C4.  When the input's [org] is a truthy object and the sanitizer
    returns, its output has an [org] whose four fields are each copied,
    converted to a string, only from a property the input has, and left
    [undefined] (never the empty string) when the input lacks it; the JSON
    sent to the client then omits the property, and [mergeState] leaves the
    previous value of every such field as it was. *)
Theorem sanitize_org_only_present_fields (input o : value)
    (su : AgentStateOf value) :
  sanitizeStateUpdates clock input = Ok (Some su) ->
  get input "org" = Ok o ->
  truthy o = true ->
  is_object o = true ->
  exists so,
    org su = Val so /\
    copied_if_present o "name" (Org.name so) /\
    copied_if_present o "country" (Org.country so) /\
    copied_if_present o "industry" (Org.industry so) /\
    copied_if_present o "size" (Org.size so) /\
    forall (update prev : AgentState),
      org update = json_org_field (org su) ->
      let before := or_default (org prev) Org.empty in
      let after := or_default (org (mergeState (Some update) prev)) Org.empty in
      (Org.name so = Undef -> Org.name after = Org.name before) /\
      (Org.country so = Undef -> Org.country after = Org.country before) /\
      (Org.industry so = Undef -> Org.industry after = Org.industry before) /\
      (Org.size so = Undef -> Org.size after = Org.size before).
Proof.
  unfold sanitizeStateUpdates. intros Hs Hget Ht Ho.
  destruct (negb (truthy input) || negb (is_object input)); [ discriminate | ].
  rewrite Hget in Hs. simpl in Hs. rewrite Ht, Ho in Hs. simpl in Hs.
  apply bind_ok in Hs. destruct Hs as (so' & Hso & Hs).
  apply bind_ok in Hso. destruct Hso as (so & Hso & Hv). injection Hv as <-.
  apply bind_ok in Hs. destruct Hs as (ir & _ & Hs).
  apply bind_ok in Hs. destruct Hs as (iu & _ & Hs).
  apply bind_ok in Hs. destruct Hs as (suu & _ & Hs).
  injection Hs as <-. simpl.
  exists so. split; [ reflexivity | ].
  destruct (sanitize_org_inv _ Hso) as (Hn & Hc & Hi & Hz).
  repeat (split; [ assumption | ]).
  intros update prev Hu. unfold mergeState. rewrite Hu. simpl.
  repeat split; intros ->; reflexivity.
Qed.

End SanitizerOrg.

(* --------------------------------------------------------------------- *)
(** ** When the sanitizer returns *)
(* --------------------------------------------------------------------- *)

Section SanitizerReturns.
Context {number : Type} `{JsNumber number}.
Variable clock : nat -> Z.

#[local] Abbreviation value := (value number) (only parsing).

Lemma get_defined (v : value) :
  nullish v = false -> forall k, get v k = Ok (get_opt v k).
Proof.
  unfold get_opt. destruct v; simpl; try discriminate; try reflexivity.
  intros _ k. destruct (lookup k props); reflexivity.
Qed.

Lemma string_or_undefined_returns (x : value) :
  safe_scalar x -> returns (string_or_undefined x).
Proof.
  unfold string_or_undefined, returns.
  intros [Hf|(s & Hs)].
  - rewrite Hf. eauto.
  - destruct (truthy x); [ rewrite Hs; simpl | ]; eauto.
Qed.

Lemma sanitize_useCase_returns (u : value) (idx : nat) :
  safe_element u -> returns (sanitize_useCase clock u idx).
Proof.
  intros (Hu & Hn & Hd & Hp & Hm & Ho).
  unfold sanitize_useCase. rewrite !(@get_defined u Hu). simpl.
  destruct (string_or_undefined_returns Hn) as (fn & ->).
  destruct (string_or_undefined_returns Hd) as (fd & ->).
  destruct (string_or_undefined_returns Hp) as (fp & ->).
  destruct (string_or_undefined_returns Hm) as (fm & ->).
  destruct (string_or_undefined_returns Ho) as (fo & ->).
  simpl. unfold returns. eauto.
Qed.

Lemma map_indexed_returns {A B : Type} (f : A -> nat -> result B)
    (P : A -> Prop) :
  (forall x i, P x -> returns (f x i)) ->
  forall xs i, Forall P xs -> returns (map_indexed f i xs).
Proof.
  intros Hf. induction xs as [|x xs IH]; intros i Hall; simpl.
  - unfold returns. eauto.
  - inversion Hall as [|? ? Hx Hxs]; subst.
    destruct (Hf x i Hx) as (y & ->). simpl.
    destruct (IH (S i) Hxs) as (ys & ->). simpl.
    unfold returns. eauto.
Qed.

Lemma sanitize_org_returns (o : value) :
  nullish o = false -> safe_org o -> returns (sanitize_org o).
Proof.
  intros Ho (Hn & Hc & Hi & Hs).
  unfold sanitize_org. rewrite !(@get_defined o Ho). simpl.
  destruct (string_or_undefined_returns Hn) as (fn & ->).
  destruct (string_or_undefined_returns Hc) as (fc & ->).
  destruct (string_or_undefined_returns Hi) as (fi & ->).
  destruct (string_or_undefined_returns Hs) as (fs & ->).
  simpl. unfold returns. eauto.
Qed.

(** The sanitizer returns on every input whose [org] properties and
    use-case elements it can read and convert: it throws only on a [null]
    element of [useCases] or on a truthy property that [String] cannot
    convert. *)
Lemma sanitize_returns (input : value) :
  (truthy (get_opt input "org") = true -> safe_org (get_opt input "org")) ->
  (forall us, get_opt input "useCases" = JArr us -> Forall safe_element us) ->
  returns (sanitizeStateUpdates clock input).
Proof.
  intros Horg Hucs. unfold sanitizeStateUpdates.
  destruct (negb (truthy input) || negb (is_object input)) eqn:Eguard;
    [ unfold returns; eauto | ].
  apply orb_false_elim in Eguard. destruct Eguard as [Ht _].
  apply negb_false_iff in Ht.
  assert (Hin : nullish input = false) by (destruct input; try discriminate; reflexivity).
  rewrite !(@get_defined input Hin). simpl.
  assert (Hso : returns (if truthy (get_opt input "org") && is_object (get_opt input "org")
                         then o <- sanitize_org (get_opt input "org");; Ok (Val o)
                         else Ok Absent)).
  { destruct (truthy (get_opt input "org")) eqn:Eo; simpl;
      [ | unfold returns; eauto ].
    destruct (is_object (get_opt input "org")); [ | unfold returns; eauto ].
    destruct (@sanitize_org_returns (get_opt input "org")) as (so & ->).
    - destruct (get_opt input "org"); try discriminate; reflexivity.
    - apply Horg. reflexivity.
    - simpl. unfold returns. eauto. }
  destruct Hso as (so & ->). simpl.
  destruct (get_opt input "useCases") as [| | | | |us|] eqn:Eu; simpl;
    try (unfold returns; eauto; fail).
  destruct (@map_indexed_returns _ _ (sanitize_useCase clock) safe_element
              (fun x i => @sanitize_useCase_returns x i) us 0 (Hucs us eq_refl))
    as (l & ->).
  simpl. unfold returns. eauto.
Qed.

End SanitizerReturns.

(* --------------------------------------------------------------------- *)
(** ** The insertion-ordered map *)
(* --------------------------------------------------------------------- *)

Section JsMapFacts.
Variable V : Type.
Implicit Types (m : JsMap.t V) (k : string) (v : V).

Lemma get_set_same m k v : JsMap.get k (JsMap.set k v m) = Some v.
Proof.
  induction m as [|[k' v'] m IH]; simpl.
  - rewrite String.eqb_refl. reflexivity.
  - destruct (String.eqb k k') eqn:E; simpl.
    + rewrite String.eqb_refl. reflexivity.
    + rewrite E. exact IH.
Qed.

Lemma get_set_other m k k' v :
  k <> k' -> JsMap.get k' (JsMap.set k v m) = JsMap.get k' m.
Proof.
  intros Hne. induction m as [|[k0 v0] m IH]; simpl.
  - destruct (String.eqb_spec k' k); [ congruence | reflexivity ].
  - destruct (String.eqb_spec k k0) as [->|Hk]; simpl.
    + destruct (String.eqb_spec k' k0); [ congruence | reflexivity ].
    + destruct (String.eqb_spec k' k0); [ reflexivity | exact IH ].
Qed.

Lemma set_absent m k v :
  ~ In k (JsMap.keys m) -> JsMap.set k v m = m ++ [(k, v)].
Proof.
  induction m as [|[k' v'] m IH]; simpl; intros Hn; [ reflexivity | ].
  destruct (String.eqb_spec k k') as [->|Hk].
  - exfalso. apply Hn. left. reflexivity.
  - f_equal. apply IH. intros Hin. apply Hn. right. exact Hin.
Qed.

Lemma keys_set_present m k v :
  In k (JsMap.keys m) -> JsMap.keys (JsMap.set k v m) = JsMap.keys m.
Proof.
  induction m as [|[k' v'] m IH]; simpl; intros Hin; [ contradiction | ].
  destruct (String.eqb_spec k k') as [->|Hk]; simpl; [ reflexivity | ].
  f_equal. apply IH. destruct Hin as [Heq|Hin]; [ congruence | exact Hin ].
Qed.

Lemma in_keys_set m k k' v :
  In k' (JsMap.keys (JsMap.set k v m)) <-> k' = k \/ In k' (JsMap.keys m).
Proof.
  induction m as [|[k0 v0] m IH]; simpl.
  - intuition congruence.
  - destruct (String.eqb_spec k k0) as [->|Hk]; simpl.
    + intuition congruence.
    + rewrite IH. intuition.
Qed.

Lemma NoDup_keys_set m k v :
  NoDup (JsMap.keys m) -> NoDup (JsMap.keys (JsMap.set k v m)).
Proof.
  induction m as [|[k' v'] m IH]; simpl; intros Hnd.
  - constructor; [ intros [] | constructor ].
  - inversion Hnd as [|? ? Hnotin Hnd']; subst.
    destruct (String.eqb_spec k k') as [->|Hk]; simpl.
    + constructor; assumption.
    + constructor; [ | apply IH; exact Hnd' ].
      rewrite in_keys_set. intros [Heq|Hin]; [ congruence | contradiction ].
Qed.

Lemma get_none_not_in m k : JsMap.get k m = None <-> ~ In k (JsMap.keys m).
Proof.
  induction m as [|[k' v'] m IH]; simpl.
  - intuition.
  - destruct (String.eqb_spec k k') as [->|Hk].
    + split; [ discriminate | intros Hn; exfalso; apply Hn; auto ].
    + rewrite IH. intuition congruence.
Qed.

(** Two maps with the same keys in the same order and the same value under
    every key are equal. *)
Lemma map_ext m1 :
  forall m2,
    NoDup (JsMap.keys m1) ->
    JsMap.keys m1 = JsMap.keys m2 ->
    (forall k, JsMap.get k m1 = JsMap.get k m2) ->
    m1 = m2.
Proof.
  induction m1 as [|[k1 v1] m1 IH]; intros [|[k2 v2] m2] Hnd Hkeys Hget;
    simpl in Hkeys; try discriminate; [ reflexivity | ].
  injection Hkeys as -> Hkeys.
  inversion Hnd as [|? ? Hnotin Hnd']; subst.
  assert (Hv : v1 = v2).
  { specialize (Hget k2). simpl in Hget. rewrite String.eqb_refl in Hget.
    congruence. }
  subst v2. f_equal. apply IH; [ exact Hnd' | exact Hkeys | ].
  intros k. specialize (Hget k). simpl in Hget.
  destruct (String.eqb_spec k k2) as [Heq|Hk]; [ subst k | exact Hget ].
  assert (Hn1 : JsMap.get k2 m1 = None) by (apply get_none_not_in; exact Hnotin).
  assert (Hn2 : JsMap.get k2 m2 = None).
  { apply get_none_not_in. unfold JsMap.keys in *. rewrite <- Hkeys. exact Hnotin. }
  congruence.
Qed.

End JsMapFacts.

(* --------------------------------------------------------------------- *)
(** ** Object spread *)
(* --------------------------------------------------------------------- *)

Lemma spread_field_assoc {A : Type} (a b c : field A) :
  spread_field (spread_field a b) c = spread_field a (spread_field b c).
Proof. destruct b, c; reflexivity. Qed.

Lemma spread_field_idem {A : Type} (a : field A) : spread_field a a = a.
Proof. destruct a; reflexivity. Qed.

(** Spread copies a property that holds [undefined]: without the JSON step
    between the sanitizer and [mergeState], a property the sanitizer left
    [undefined] would erase the previous value. *)
Remark spread_field_undefined {A : Type} (a : field A) :
  spread_field a Undef = Undef /\ spread_field a (json_field Undef) = a.
Proof. split; reflexivity. Qed.

Lemma spread_field_unions {A : Type} (old new : field A) :
  unions old new (spread_field old new).
Proof.
  split; [ intros ->; reflexivity | ].
  destruct new; [ congruence | reflexivity | reflexivity ].
Qed.

Lemma spread_assoc (a b c : UseCaseT) :
  UseCase.spread (UseCase.spread a b) c = UseCase.spread a (UseCase.spread b c).
Proof.
  unfold UseCase.spread; simpl. f_equal; apply spread_field_assoc.
Qed.

Lemma spread_idem (a : UseCaseT) : UseCase.spread a a = a.
Proof.
  destruct a; unfold UseCase.spread; simpl. f_equal; apply spread_field_idem.
Qed.

Lemma spread_field_union (e u : UseCaseT) : field_union e u (UseCase.spread e u).
Proof.
  unfold field_union; simpl.
  repeat (split; [ first [ reflexivity | apply spread_field_unions ] | ]).
  apply spread_field_unions.
Qed.

Lemma org_spread_idem (a b : Org.t) :
  Org.spread (Org.spread a b) b = Org.spread a b.
Proof.
  unfold Org.spread; simpl.
  f_equal; rewrite spread_field_assoc, spread_field_idem; reflexivity.
Qed.

Lemma spread_onto_id (o : option UseCaseT) (u : UseCaseT) :
  UseCase.id (spread_onto o u) = UseCase.id u.
Proof. destruct o; reflexivity. Qed.

Lemma fold_spread_assoc (l : list UseCaseT) :
  forall x u,
    fold_left UseCase.spread l (UseCase.spread x u) =
    UseCase.spread x (fold_left UseCase.spread l u).
Proof.
  induction l as [|v l IH]; intros x u; simpl; [ reflexivity | ].
  rewrite spread_assoc. apply IH.
Qed.

Lemma absorb_some (l : list UseCaseT) :
  forall x, absorb (Some x) l = Some (fold_left UseCase.spread l x).
Proof.
  unfold absorb. induction l as [|u l IH]; intros x; simpl; [ reflexivity | ].
  apply IH.
Qed.

Lemma absorb_cons (o : option UseCaseT) (u : UseCaseT) (l : list UseCaseT) :
  absorb o (u :: l) = Some (spread_onto o (fold_left UseCase.spread l u)).
Proof.
  change (absorb o (u :: l)) with (absorb (Some (spread_onto o u)) l).
  rewrite absorb_some.
  destruct o as [x|]; simpl; [ rewrite fold_spread_assoc | ]; reflexivity.
Qed.

(** Taking the same records in a second time changes nothing. *)
Lemma absorb_idem (o : option UseCaseT) (l : list UseCaseT) :
  absorb (absorb o l) l = absorb o l.
Proof.
  destruct l as [|u l]; [ reflexivity | ].
  rewrite (absorb_cons o). rewrite absorb_cons.
  destruct o as [x|]; simpl.
  - rewrite spread_assoc, spread_idem. reflexivity.
  - rewrite spread_idem. reflexivity.
Qed.

(* --------------------------------------------------------------------- *)
(** ** The two loops of [mergeState] *)
(* --------------------------------------------------------------------- *)

Lemma keyed_set (m : JsMap.t UseCaseT) (u : UseCaseT) :
  keyed m -> keyed (JsMap.set (UseCase.id u) u m).
Proof.
  unfold keyed. induction m as [|[k v] m IH]; simpl; intros Hk.
  - constructor; [ reflexivity | constructor ].
  - inversion Hk as [|? ? Hv Hm]; subst.
    destruct (String.eqb (UseCase.id u) k); constructor; auto.
Qed.

Lemma keyed_ids (m : JsMap.t UseCaseT) :
  keyed m -> ids (JsMap.values m) = JsMap.keys m.
Proof.
  unfold keyed, ids, JsMap.values, JsMap.keys.
  induction 1 as [|[k v] m Hv _ IH]; simpl; [ reflexivity | ].
  simpl in Hv. congruence.
Qed.

Lemma keyed_rebuild (m : JsMap.t UseCaseT) :
  keyed m -> map (fun u => (UseCase.id u, u)) (JsMap.values m) = m.
Proof.
  unfold keyed, JsMap.values.
  induction 1 as [|[k v] m Hv _ IH]; simpl; [ reflexivity | ].
  simpl in Hv. congruence.
Qed.

Lemma well_keyed_empty : well_keyed JsMap.empty.
Proof. split; constructor. Qed.

Lemma index_existing_well_keyed (existing : list UseCaseT) :
  forall m, well_keyed m -> well_keyed (index_existing existing m).
Proof.
  unfold index_existing.
  induction existing as [|u l IH]; intros m [Hnd Hk]; simpl; [ split; assumption | ].
  apply IH. split; [ apply NoDup_keys_set; exact Hnd | apply keyed_set; exact Hk ].
Qed.

Lemma fold_incoming_well_keyed (incoming : list UseCaseT) :
  forall m, well_keyed m -> well_keyed (fold_incoming incoming m).
Proof.
  unfold fold_incoming.
  induction incoming as [|u l IH]; intros m [Hnd Hk]; simpl; [ split; assumption | ].
  apply IH. split; [ apply NoDup_keys_set; exact Hnd | ].
  rewrite <- (spread_onto_id (JsMap.get (UseCase.id u) m) u) at 1.
  apply keyed_set. exact Hk.
Qed.

(** What [fold_incoming] leaves under a key: the entry found there
    before, with the incoming records of that [id] spread onto it in
    order. *)
Lemma get_fold_incoming (incoming : list UseCaseT) (k : string) :
  forall m,
    JsMap.get k (fold_incoming incoming m) =
    absorb (JsMap.get k m) (filter (has_id k) incoming).
Proof.
  unfold fold_incoming.
  induction incoming as [|u l IH]; intros m; simpl; [ reflexivity | ].
  rewrite IH. unfold has_id at 2.
  destruct (String.eqb_spec (UseCase.id u) k) as [<-|Hne].
  - rewrite get_set_same. reflexivity.
  - rewrite get_set_other by exact Hne. reflexivity.
Qed.

(** What [index_existing] leaves under a key: the last record with that
    [id], or what was there. *)
Lemma get_index_existing (existing : list UseCaseT) (k : string) :
  forall m,
    JsMap.get k (index_existing existing m) =
    fold_left (fun o u => Some u) (filter (has_id k) existing) (JsMap.get k m).
Proof.
  unfold index_existing.
  induction existing as [|u l IH]; intros m; simpl; [ reflexivity | ].
  rewrite IH. unfold has_id at 2.
  destruct (String.eqb_spec (UseCase.id u) k) as [<-|Hne].
  - rewrite get_set_same. reflexivity.
  - rewrite get_set_other by exact Hne. reflexivity.
Qed.

Lemma keys_fold_incoming_mono (incoming : list UseCaseT) (k : string) :
  forall m,
    In k (JsMap.keys m) -> In k (JsMap.keys (fold_incoming incoming m)).
Proof.
  unfold fold_incoming.
  induction incoming as [|u l IH]; intros m Hin; simpl; [ exact Hin | ].
  apply IH. apply in_keys_set. right. exact Hin.
Qed.

Lemma keys_fold_incoming_all (incoming : list UseCaseT) :
  forall m u,
    In u incoming -> In (UseCase.id u) (JsMap.keys (fold_incoming incoming m)).
Proof.
  induction incoming as [|v l IH]; intros m u Hin; [ contradiction | ].
  destruct Hin as [->|Hin].
  - change (fold_incoming (u :: l) m)
      with (fold_incoming l
              (JsMap.set (UseCase.id u)
                 (spread_onto (JsMap.get (UseCase.id u) m) u) m)).
    apply keys_fold_incoming_mono. apply in_keys_set. left. reflexivity.
  - apply (IH _ u Hin).
Qed.

(** Records whose ids are all keys already add no key. *)
Lemma keys_fold_incoming_present (incoming : list UseCaseT) :
  forall m,
    (forall u, In u incoming -> In (UseCase.id u) (JsMap.keys m)) ->
    JsMap.keys (fold_incoming incoming m) = JsMap.keys m.
Proof.
  unfold fold_incoming.
  induction incoming as [|u l IH]; intros m Hall; simpl; [ reflexivity | ].
  assert (Hu : In (UseCase.id u) (JsMap.keys m)) by (apply Hall; left; reflexivity).
  rewrite IH.
  - apply keys_set_present. exact Hu.
  - intros v Hv. rewrite keys_set_present by exact Hu. apply Hall. right. exact Hv.
Qed.

(** Indexing a list whose ids are distinct rebuilds it entry by entry. *)
Lemma index_existing_distinct (existing : list UseCaseT) :
  forall m,
    NoDup (JsMap.keys m ++ ids existing) ->
    index_existing existing m = m ++ map (fun u => (UseCase.id u, u)) existing.
Proof.
  unfold index_existing.
  induction existing as [|u l IH]; intros m Hnd; simpl.
  - rewrite app_nil_r. reflexivity.
  - assert (Hnotin : ~ In (UseCase.id u) (JsMap.keys m)).
    { intros Hin. apply NoDup_remove_2 in Hnd. apply Hnd.
      apply in_or_app. left. exact Hin. }
    rewrite set_absent by exact Hnotin.
    rewrite IH.
    + rewrite <- app_assoc. reflexivity.
    + unfold JsMap.keys. rewrite map_app. simpl. rewrite <- app_assoc. exact Hnd.
Qed.

Lemma index_values (m : JsMap.t UseCaseT) :
  well_keyed m -> index_existing (JsMap.values m) JsMap.empty = m.
Proof.
  intros [Hnd Hk].
  rewrite index_existing_distinct.
  - simpl. apply keyed_rebuild. exact Hk.
  - simpl. rewrite keyed_ids by exact Hk. exact Hnd.
Qed.

Lemma filter_none {A : Type} (f : A -> bool) (l : list A) :
  (forall x, In x l -> f x = false) -> filter f l = [].
Proof.
  induction l as [|x l IH]; intros Hall; simpl; [ reflexivity | ].
  rewrite (Hall x) by (left; reflexivity).
  apply IH. intros y Hy. apply Hall. right. exact Hy.
Qed.

(** The only entry stored under [k]. *)
Lemma filter_values (m : JsMap.t UseCaseT) (k : string) (r : UseCaseT) :
  well_keyed m ->
  JsMap.get k m = Some r ->
  filter (has_id k) (JsMap.values m) = [r].
Proof.
  intros [Hnd Hk]. induction Hk as [|[k' v] m Hv Hk IH]; simpl; [ discriminate | ].
  simpl in Hv. subst k'. inversion Hnd as [|? ? Hnotin Hnd']; subst.
  unfold has_id at 1. rewrite (String.eqb_sym (UseCase.id v) k).
  destruct (String.eqb_spec k (UseCase.id v)) as [->|Hne].
  - intros Hr. injection Hr as ->. f_equal.
    apply filter_none.
    intros u Hu. unfold has_id. apply String.eqb_neq. intros Heq.
    apply Hnotin. rewrite <- (keyed_ids Hk). unfold ids.
    rewrite <- Heq. apply in_map. exact Hu.
  - intros Hr. apply IH; assumption.
Qed.

(** The entry of the merged collection with a given [id], in general: the
    last existing entry of that [id], with the incoming records of that
    [id] spread onto it in their order. *)
Lemma merge_useCases_entry (existing incoming : list UseCaseT) (k : string)
    (r : UseCaseT) :
  absorb (fold_left (fun _ u => Some u) (filter (has_id k) existing) None)
         (filter (has_id k) incoming) = Some r ->
  filter (has_id k) (merge_useCases existing incoming) = [r].
Proof.
  intros Hr. unfold merge_useCases. apply filter_values.
  - apply fold_incoming_well_keyed, index_existing_well_keyed, well_keyed_empty.
  - rewrite get_fold_incoming, get_index_existing. exact Hr.
Qed.

Lemma merge_useCases_unique (existing incoming : list UseCaseT) :
  NoDup (ids (merge_useCases existing incoming)).
Proof.
  unfold merge_useCases.
  destruct (fold_incoming_well_keyed incoming
              (index_existing_well_keyed existing well_keyed_empty)) as [Hnd Hk].
  rewrite keyed_ids by exact Hk. exact Hnd.
Qed.

Lemma merge_useCases_idem (existing incoming : list UseCaseT) :
  merge_useCases (merge_useCases existing incoming) incoming =
  merge_useCases existing incoming.
Proof.
  unfold merge_useCases.
  set (m0 := index_existing existing JsMap.empty).
  set (m1 := fold_incoming incoming m0).
  assert (Hwk : well_keyed m1).
  { apply fold_incoming_well_keyed, index_existing_well_keyed, well_keyed_empty. }
  rewrite (index_values Hwk). f_equal.
  assert (Hkeys : JsMap.keys (fold_incoming incoming m1) = JsMap.keys m1).
  { apply keys_fold_incoming_present. intros u Hu.
    apply keys_fold_incoming_all. exact Hu. }
  symmetry. apply map_ext.
  - apply Hwk.
  - symmetry. exact Hkeys.
  - intros k. rewrite (get_fold_incoming incoming k m1).
    unfold m1. rewrite (get_fold_incoming incoming k m0).
    symmetry. apply absorb_idem.
Qed.

(* --------------------------------------------------------------------- *)
(** ** [mergeState] *)
(* --------------------------------------------------------------------- *)

(** C5.  [useCases] holds no two entries with the same [id] after a merge:
    a merge that carries [useCases] establishes it whatever the state was,
    any other merge keeps it, and so it holds of every state reached from
    the initial one. *)
Theorem mergeState_unique_ids :
  (forall (prev : AgentState) (update : option AgentState),
     unique_ids prev \/
     (exists u incoming, update = Some u /\ useCases u = Val incoming) ->
     unique_ids (mergeState update prev)) /\
  (forall updates : list (option AgentState), unique_ids (after_merges updates)).
Proof.
  assert (Hstep : forall prev update,
             unique_ids prev \/
             (exists u incoming, update = Some u /\ useCases u = Val incoming) ->
             unique_ids (mergeState update prev)).
  { intros prev [update|] Hor; simpl.
    - unfold unique_ids; simpl.
      destruct (provided (useCases update)) as [incoming|] eqn:Ep.
      + apply merge_useCases_unique.
      + destruct Hor as [Hprev|(u & incoming & Hu & Hval)]; [ exact Hprev | ].
        injection Hu as <-. rewrite Hval in Ep. discriminate Ep.
    - destruct Hor as [Hprev|(u & incoming & Hu & _)]; [ exact Hprev | discriminate ]. }
  split; [ exact Hstep | ].
  intros updates. unfold after_merges.
  assert (Hgen : forall s, unique_ids s ->
             unique_ids (fold_left (fun s u => mergeState u s) updates s)).
  { induction updates as [|u l IH]; intros s Hs; simpl; [ exact Hs | ].
    apply IH. apply Hstep. left. exact Hs. }
  apply Hgen. unfold unique_ids. simpl. constructor.
Qed.

(** C6.  An update that carries [roles] replaces the previous sequence as
    a whole. *)
Theorem mergeState_replaces_roles (prev update : AgentState) (r : list string) :
  roles update = Val r ->
  roles (mergeState (Some update) prev) = Val r.
Proof.
  intros Hr. simpl. rewrite Hr. reflexivity.
Qed.

(** C7.  Merging the same update a second time gives the state the first
    merge gave, the order of [useCases] included. *)
Theorem mergeState_idempotent (s : AgentState) (u : option AgentState) :
  mergeState u (mergeState u s) = mergeState u s.
Proof.
  destruct u as [u|]; [ | reflexivity ].
  unfold mergeState. simpl.
  f_equal.
  - destruct (provided (org u)) as [uo|]; [ | reflexivity ].
    unfold or_default at 1. simpl. rewrite org_spread_idem. reflexivity.
  - destruct (provided (roles u)); reflexivity.
  - destruct (provided (useCases u)) as [incoming|]; [ | reflexivity ].
    unfold or_default at 1. simpl. rewrite merge_useCases_idem. reflexivity.
Qed.

Section SanitizedRecords.
Context {number : Type} `{JsNumber number}.
Variable clock : nat -> Z.

#[local] Abbreviation value := (value number) (only parsing).

Lemma string_or_undefined_present (x : value) (f : field string) :
  string_or_undefined x = Ok f -> f <> Absent.
Proof.
  intros Hf. destruct (string_or_undefined_inv _ Hf) as [(_ & s & _ & ->)|(_ & ->)];
    discriminate.
Qed.

Lemma strings_or_undefined_present (x : value) : strings_or_undefined x <> Absent.
Proof. destruct x; discriminate. Qed.

Lemma boolean_or_undefined_present (x : value) : boolean_or_undefined x <> Absent.
Proof. destruct x; discriminate. Qed.

Lemma risk_or_undefined_present (x : value) : risk_or_undefined x <> Absent.
Proof.
  unfold risk_or_undefined.
  repeat match goal with
         | |- context [match ?v with _ => _ end] => destruct v
         end; discriminate.
Qed.

Lemma takes_sanitized_spread {A : Type} (san old : field A) :
  san <> Absent -> takes_sanitized san old (spread_field old (json_field san)).
Proof.
  intros Hs. split; [ | split ]; [ intros v -> | intros -> | exact Hs ]; reflexivity.
Qed.

Ltac sanitized_field :=
  apply takes_sanitized_spread;
  first [ eapply string_or_undefined_present; eassumption
        | apply strings_or_undefined_present
        | apply boolean_or_undefined_present
        | apply risk_or_undefined_present ].

(** A record of the sanitizer, once through JSON, merges field by field:
    what the sanitizer set is taken, what it left [undefined] keeps the
    value of the existing entry. *)
Lemma sanitized_record_merges (raw : value) (idx : nat) (s : UseCase.t value)
    (u e : UseCaseT) :
  sanitize_useCase clock raw idx = Ok s ->
  json_useCase s = Some u ->
  sanitized_union s e (UseCase.spread e u).
Proof.
  unfold sanitize_useCase, json_useCase. intros Hs Hu.
  bind_inv Hs. injection Hs as <-. simpl in Hu |- *.
  destruct (or_else _ _) eqn:Eid; try discriminate Hu.
  injection Hu as <-.
  unfold sanitized_union; simpl.
  split; [ reflexivity | ].
  do 9 (split; [ sanitized_field | ]). sanitized_field.
Qed.

End SanitizedRecords.

(** C1.  When the state has one entry [e] with id [k] and the update one
    record [u] with id [k], the merged [useCases] has a single entry with
    id [k]: the fields [u] has take [u]'s values, the fields it lacks keep
    those of [e].  The same holds when [u] is a record of the sanitizer as
    the client receives it: the fields the sanitizer set are taken, those
    it left [undefined] keep the values of [e]. *)
Theorem mergeState_field_level_union (prev update : AgentState)
    (existing incoming : list UseCaseT) (e u : UseCaseT) (k : string) :
  useCases prev = Val existing ->
  useCases update = Val incoming ->
  filter (has_id k) existing = [e] ->
  filter (has_id k) incoming = [u] ->
  filter (has_id k) (or_default (useCases (mergeState (Some update) prev)) [])
    = [UseCase.spread e u] /\
  field_union e u (UseCase.spread e u) /\
  forall (number : Type) (N : JsNumber number) (clock : nat -> Z)
         (raw : value number) (idx : nat) (s : UseCase.t (value number)),
    sanitize_useCase clock raw idx = Ok s ->
    json_useCase s = Some u ->
    sanitized_union s e (UseCase.spread e u).
Proof.
  intros Hprev Hupd He Hu.
  split; [ | split ].
  - simpl. rewrite Hupd, Hprev. simpl. unfold or_default. simpl.
    apply merge_useCases_entry. rewrite He, Hu. reflexivity.
  - apply spread_field_union.
  - intros number N clock raw idx s Hs Hj.
    eapply sanitized_record_merges; eassumption.
Qed.

(* --------------------------------------------------------------------- *)
(** ** The handler and the client *)
(* --------------------------------------------------------------------- *)

Section Turn.
Context {number : Type} `{JsNumber number}.
Variable JSON_parse : string -> result (value number).
Variable clock : nat -> Z.

#[local] Abbreviation value := (value number) (only parsing).

(** C2 (as the code has it).  A request without [input], or whose [input]
    is the empty string or not a string, is answered [400] before any
    outbound call, and the client keeps its session state on any failure
    response.  A text of white space only never reaches the handler: the
    client trims it and returns with nothing sent and nothing changed. *)
Theorem empty_input_rejected_blank_text_not_sent :
  (forall (env : Env) (upstream : upstream_request number -> upstream_outcome)
          (req : request number),
     method req = "POST" ->
     (let input := get_opt (or_else (req_body req) (JObj [])) "input" in
      truthy input = false \/ is_string input = false) ->
     handler JSON_parse clock env upstream req = ([], fail 400 missing_input)) /\
  (forall (api : Client.api_request -> Client.api_outcome number)
          (text : string) (c : Client.t) (r : response number string),
     api (Client.mkApi (trim text) (Client.agentState c)) = Client.ApiResponse r ->
     ok_status (status r) = false ->
     Client.agentState (fst (Client.sendMessage api text c)) = Client.agentState c) /\
  (forall (api : Client.api_request -> Client.api_outcome number)
          (text : string) (c : Client.t),
     trim text = "" ->
     Client.sendMessage api text c = (c, [])).
Proof.
  split; [ | split ].
  - intros env upstream req Hm Hin. unfold handler. rewrite Hm. simpl.
    simpl in Hin. destruct Hin as [-> | ->]; simpl; [ reflexivity | ].
    rewrite orb_true_r. reflexivity.
  - intros api text c r Hapi Hok. unfold Client.sendMessage.
    destruct (negb (nonempty (trim text)) || Client.loading c); [ reflexivity | ].
    simpl. simpl in Hapi. rewrite Hapi, Hok.
    destruct (body r) as [e|b]; [ destruct e as [[|? ?]| | |] | ]; reflexivity.
  - intros api text c Ht. unfold Client.sendMessage. rewrite Ht. reflexivity.
Qed.

(** C9.  When the candidate text does not parse, nothing structured is
    extracted and nothing is thrown: the bundle carries the narrative (the
    reply without its fenced blocks, trimmed) and no update, the handler
    answers [200] with it, and the client that receives it keeps its
    session state. *)
Theorem unparsable_candidate_degrades (reply text : string) (e : exn)
    (data : value) :
  jsonText reply = Some text ->
  JSON_parse text = Throw e ->
  bundle_of JSON_parse clock reply data = narrative_only reply data /\
  (forall (upstream : upstream_request number -> upstream_outcome)
          (r : upstream_request number) (code : nat) (body : string),
     upstream r = FetchResponse code body ->
     ok_status code = true ->
     JSON_parse body = Ok data ->
     extractText data = Ok reply ->
     call_model JSON_parse clock upstream r =
       mkResponse 200 [] (Success (narrative_only reply data))) /\
  exists b : Bundle.t number string,
    json_bundle (narrative_only reply data) = Some b /\
    Bundle.reply b = cleanReply reply /\
    forall c : Client.t,
      Client.agentState (Client.receive b c) = Client.agentState c.
Proof.
  intros Hcand Hparse.
  assert (Hb : bundle_of JSON_parse clock reply data = narrative_only reply data).
  { unfold bundle_of, extract_structured. rewrite Hcand.
    destruct (nonempty text); [ unfold parse_structured; rewrite Hparse | ];
      reflexivity. }
  split; [ exact Hb | split ].
  - intros upstream r code body Hup Hok Hdata Htext.
    unfold call_model. rewrite Hup, Hok, Hdata, Htext, Hb. reflexivity.
  - eexists. split; [ reflexivity | ]. split; reflexivity.
Qed.

End Turn.

Local Open Scope string_scope.

(* --------------------------------------------------------------------- *)
(** ** Strings and scans *)
(* --------------------------------------------------------------------- *)


Lemma append_empty_r (a : string) : a ++ "" = a.
Proof. induction a as [|x a IH]; simpl; [ reflexivity | rewrite IH; reflexivity ]. Qed.






Lemma drop_drop (s : string) : forall n, drop n (drop 1 s) = drop (S n) s.
Proof. destruct s; intros [|n]; reflexivity. Qed.

(** A prefix test looks no further than the length of the pattern. *)
Lemma starts_with_local (pat : string) :
  forall a b,
    String.length pat <= String.length a ->
    starts_with pat (a ++ b) = starts_with pat a.
Proof.
  induction pat as [|p pat IH]; intros [|x a] b Hlen; simpl in *;
    try reflexivity; try lia.
  rewrite IH by lia. reflexivity.
Qed.


Lemma canonicalize_backtick (c : ascii) :
  Ascii.eqb backtick (canonicalize c) = Ascii.eqb backtick c.
Proof. destruct c as [[] [] [] [] [] [] [] []]; reflexivity. Qed.

Lemma backtick_not_space (c : ascii) :
  Ascii.eqb backtick c = true -> is_space c = false.
Proof. intros Hc. apply Ascii.eqb_eq in Hc. subst c. reflexivity. Qed.

(** Where [```json] starts, a fence marker starts. *)
Lemma json_opening_is_fence (s : string) :
  starts_with_ci "```json" s = true -> starts_with fence s = true.
Proof.
  destruct s as [|c1 [|c2 [|c3 s]]]; try discriminate;
    unfold fence; cbn [starts_with_ci starts_with];
    rewrite ?andb_false_r; try discriminate.
  change (canonicalize "`") with backtick. change "`"%char with backtick.
  rewrite !canonicalize_backtick.
  destruct (Ascii.eqb backtick c1), (Ascii.eqb backtick c2),
    (Ascii.eqb backtick c3); simpl; try discriminate. reflexivity.
Qed.



Lemma find_fence_none (s : string) :
  find_fence s = None -> forall n, starts_with fence (drop n s) = false.
Proof.
  induction s as [|c s IH]; intros Hk n.
  - destruct n; reflexivity.
  - cbn [find_fence] in Hk.
    destruct (starts_with fence (String c s)) eqn:Est; [ discriminate | ].
    destruct (find_fence s) eqn:Ej; simpl in Hk; [ discriminate | ].
    destruct n as [|n]; [ exact Est | ]. simpl. apply IH. reflexivity.
Qed.


Lemma first_json_opening_none (s : string) :
  first_json_opening s = None ->
  forall n, starts_with_ci "```json" (drop n s) = false.
Proof.
  induction s as [|c s IH]; intros Hk n.
  - destruct n; reflexivity.
  - cbn [first_json_opening] in Hk.
    destruct (starts_with_ci "```json" (String c s)) eqn:Est; [ discriminate | ].
    destruct (first_json_opening s) eqn:Ej; simpl in Hk; [ discriminate | ].
    destruct n as [|n]; [ exact Est | ]. simpl. apply IH. reflexivity.
Qed.







Lemma length_drop (a : string) :
  forall n, String.length (drop n a) = String.length a - n.
Proof.
  induction a as [|x a IH]; intros [|n]; simpl; try reflexivity. apply IH.
Qed.




(* --------------------------------------------------------------------- *)
(** ** Global replacement *)
(* --------------------------------------------------------------------- *)


(** Text in which no match starts is copied. *)
Lemma remove_all_quiet (span : string -> option nat) (a rest : string) :
  (forall n, n < String.length a -> span (drop n a ++ rest) = None) ->
  remove_all span 0 (a ++ rest) = a ++ remove_all span 0 rest.
Proof.
  induction a as [|c a IH]; intros Hq; [ reflexivity | ].
  change (String c a ++ rest) with (String c (a ++ rest)).
  cbn [remove_all].
  assert (H0 : span (String c (a ++ rest)) = None)
    by (apply (Hq 0); simpl; lia).
  rewrite H0. rewrite IH; [ reflexivity | ].
  intros n Hn. apply (Hq (S n)). simpl. lia.
Qed.

Lemma remove_all_nothing (span : string -> option nat) (s : string) :
  (forall n, span (drop n s) = None) -> remove_all span 0 s = s.
Proof.
  intros Hq. rewrite <- (append_empty_r s) at 1.
  rewrite remove_all_quiet; [ apply append_empty_r | ].
  intros n _. rewrite append_empty_r. apply Hq.
Qed.


(* --------------------------------------------------------------------- *)
(** ** The fenced blocks *)
(* --------------------------------------------------------------------- *)







Lemma no_fence_no_span (s : string) :
  starts_with fence s = false -> fence_span s = None.
Proof. unfold fence_span. intros ->. reflexivity. Qed.

Lemma no_opening_no_span (s : string) :
  starts_with_ci "```json" s = false -> json_fence_span s = None.
Proof. unfold json_fence_span. intros ->. reflexivity. Qed.

Lemma no_opening_no_match (s : string) :
  starts_with_ci "```json" s = false -> json_fence_at s = None.
Proof. unfold json_fence_at. intros ->. reflexivity. Qed.

Lemma no_fence_no_opening (s : string) :
  starts_with fence s = false -> starts_with_ci "```json" s = false.
Proof.
  intros Hf. destruct (starts_with_ci "```json" s) eqn:E; [ | reflexivity ].
  apply json_opening_is_fence in E. congruence.
Qed.

(* --------------------------------------------------------------------- *)
(** ** Extraction *)
(* --------------------------------------------------------------------- *)




Lemma no_fence_unchanged (s : string) :
  find_fence s = None -> remove_all fence_span 0 s = s.
Proof.
  intros Hs. apply remove_all_nothing.
  intros n. apply no_fence_no_span, find_fence_none. exact Hs.
Qed.


Local Open Scope list_scope.

(* --------------------------------------------------------------------- *)
(** ** Worked examples *)
(* --------------------------------------------------------------------- *)

(** The example of the specification: [{id: "uc-1", name: "A"}] then
    [{id: "uc-1", risk: "high"}] merged into the initial state. *)
Lemma mergeState_field_level_union_witness :
  let prev := mergeState (Some (only_useCases [uc1_named])) initialAgentState in
  useCases prev = Val [uc1_named] /\
  filter (has_id "uc-1")
    (or_default
       (useCases (mergeState (Some (only_useCases [uc1_rated])) prev)) [])
    = [uc1_merged] /\
  useCases (mergeState (Some (only_useCases [uc1_rated])) prev) = Val [uc1_merged].
Proof.
  split; [ reflexivity | split; [ | reflexivity ] ].
  exact (proj1 (@mergeState_field_level_union
                  (mergeState (Some (only_useCases [uc1_named])) initialAgentState)
                  (only_useCases [uc1_rated])
                  [uc1_named] [uc1_rated] uc1_named uc1_rated "uc-1"
                  eq_refl eq_refl eq_refl eq_refl)).
Defined.

(** C2, counterexample.  The handler does not trim: a request whose
    [input] is three spaces passes the validation, and the upstream model
    is called with it. *)
Lemma handler_forwards_blank_input :
  trim "   " = ""%string /\
  exists r,
    handler parse_hello frozen_clock test_env always_ok blank_request
      = ([r], mkResponse 200 []
                (Success (bundle_of parse_hello frozen_clock "Hello"
                            (JObj [("output_text", JStr "Hello")])))) /\
    up_message r = "   "%string.
Proof.
  split; [ reflexivity | ].
  eexists. split; reflexivity.
Defined.

Lemma empty_input_rejected_blank_text_not_sent_witness :
  handler parse_hello frozen_clock test_env always_ok empty_request
    = ([], fail 400 missing_input) /\
  trim "   " = ""%string /\
  Client.sendMessage (fun _ => @Client.ApiUnreachable Z) "   " idle_client
    = (idle_client, []).
Proof.
  pose proof (@empty_input_rejected_blank_text_not_sent Z Z_number
                parse_hello frozen_clock) as (Hserver & _ & Hclient).
  split; [ | split ].
  - apply Hserver; [ reflexivity | left; reflexivity ].
  - reflexivity.
  - apply Hclient. reflexivity.
Defined.

Lemma sanitize_org_only_present_fields_witness :
  sanitizeStateUpdates frozen_clock org_payload = Ok (Some org_sanitized) /\
  exists so,
    org org_sanitized = Val so /\
    copied_if_present (JObj [("name", JStr "Acme"); ("size", JNum 250%Z)])
      "country" (Org.country so).
Proof.
  split; [ reflexivity | ].
  destruct (@sanitize_org_only_present_fields Z Z_number frozen_clock
              org_payload
              (JObj [("name", JStr "Acme"); ("size", JNum 250%Z)])
              org_sanitized eq_refl eq_refl eq_refl eq_refl)
    as (so & Hso & _ & Hcountry & _).
  exists so. split; assumption.
Defined.

Lemma mergeState_unique_ids_witness :
  unique_ids (mergeState (Some (only_useCases [uc1_named; uc1_rated]))
                (only_useCases [uc1_named; uc1_named])).
Proof.
  apply (proj1 mergeState_unique_ids).
  right. exists (only_useCases [uc1_named; uc1_rated]), [uc1_named; uc1_rated].
  split; reflexivity.
Defined.

(** The example of the specification: [roles: ["Provider"]] merged with
    [{roles: ["Deployer"]}]. *)
Lemma mergeState_replaces_roles_witness :
  roles (mergeState (Some (only_roles ["Deployer"]))
           (mkState Absent (Val ["Provider"]) (Val [])))
    = Val ["Deployer"].
Proof.
  apply mergeState_replaces_roles. reflexivity.
Defined.

Lemma sanitize_ids_truthy_witness :
  sanitizeStateUpdates frozen_clock ids_payload
    = Ok (Some (mkState Absent Absent (Val ids_sanitized))) /\
  exists us,
    get ids_payload "useCases" = Ok (JArr us) /\
    List.length ids_sanitized = List.length us.
Proof.
  split; [ reflexivity | ].
  destruct (@sanitize_ids_truthy Z Z_number frozen_clock ids_payload
              (mkState Absent Absent (Val ids_sanitized)) ids_sanitized
              eq_refl eq_refl) as (us & Hget & Hlen & _).
  exists us. split; assumption.
Defined.


Lemma unparsable_candidate_degrades_witness :
  jsonText broken_reply = Some "{not: valid json}"%string /\
  bundle_of reject_all frozen_clock broken_reply JNull
    = Bundle.mk "Noted. {not: valid json}"%string None None None None None None
        Undef JNull.
Proof.
  split; [ reflexivity | ].
  exact (proj1 (@unparsable_candidate_degrades Z Z_number reject_all
                  frozen_clock broken_reply "{not: valid json}"%string
                  SyntaxError JNull eq_refl eq_refl)).
Defined.


(* ===================================================================== *)
(** * Further properties of the code *)
(* ===================================================================== *)

(* --------------------------------------------------------------------- *)
(** ** What a merge does to the collection as a whole *)
(* --------------------------------------------------------------------- *)

Lemma keys_index_existing (existing : list UseCaseT) (k : string) :
  forall m,
    In k (JsMap.keys (index_existing existing m)) <->
    In k (JsMap.keys m) \/ In k (ids existing).
Proof.
  unfold index_existing.
  induction existing as [|u l IH]; intros m; simpl.
  - tauto.
  - rewrite IH, in_keys_set. intuition.
Qed.

Lemma keys_fold_incoming (incoming : list UseCaseT) (k : string) :
  forall m,
    In k (JsMap.keys (fold_incoming incoming m)) <->
    In k (JsMap.keys m) \/ In k (ids incoming).
Proof.
  unfold fold_incoming.
  induction incoming as [|u l IH]; intros m; simpl.
  - tauto.
  - rewrite IH, in_keys_set. intuition.
Qed.

Lemma keys_set_extends {V : Type} (m : JsMap.t V) (k : string) (v : V) :
  exists fresh, JsMap.keys (JsMap.set k v m) = JsMap.keys m ++ fresh.
Proof.
  induction m as [|[k' v'] m (fresh & IH)]; simpl.
  - exists [k]. reflexivity.
  - destruct (String.eqb_spec k k') as [->|Hne]; simpl.
    + exists []. rewrite app_nil_r. reflexivity.
    + exists fresh. rewrite IH. reflexivity.
Qed.

Lemma keys_fold_incoming_extends (incoming : list UseCaseT) :
  forall m, exists fresh,
    JsMap.keys (fold_incoming incoming m) = JsMap.keys m ++ fresh.
Proof.
  unfold fold_incoming.
  induction incoming as [|u l IH]; intros m; simpl.
  - exists []. rewrite app_nil_r. reflexivity.
  - destruct (IH (JsMap.set (UseCase.id u)
                    (spread_onto (JsMap.get (UseCase.id u) m) u) m))
      as (fresh & ->).
    destruct (keys_set_extends m (UseCase.id u)
                (spread_onto (JsMap.get (UseCase.id u) m) u)) as (f0 & ->).
    exists (f0 ++ fresh). rewrite app_assoc. reflexivity.
Qed.

Lemma merge_useCases_keys (existing incoming : list UseCaseT) :
  ids (merge_useCases existing incoming) =
  JsMap.keys (fold_incoming incoming (index_existing existing JsMap.empty)).
Proof.
  unfold merge_useCases. apply keyed_ids.
  apply fold_incoming_well_keyed, index_existing_well_keyed, well_keyed_empty.
Qed.

(** X1.  A merge deletes no use case and invents none: the ids of the merged
    collection are those of the existing entries and of the incoming
    records; and when the existing ids are distinct, the existing entries
    keep their positions and the new ones follow. *)
Theorem merge_useCases_ids (existing incoming : list UseCaseT) :
  (forall k, In k (ids (merge_useCases existing incoming)) <->
             In k (ids existing) \/ In k (ids incoming)) /\
  (NoDup (ids existing) ->
   exists fresh,
     ids (merge_useCases existing incoming) = ids existing ++ fresh /\
     forall k, In k fresh -> In k (ids incoming) /\ ~ In k (ids existing)).
Proof.
  split.
  - intros k. rewrite merge_useCases_keys, keys_fold_incoming, keys_index_existing.
    simpl. tauto.
  - intros Hnd.
    assert (Hkeys : JsMap.keys (index_existing existing JsMap.empty) = ids existing).
    { rewrite index_existing_distinct by exact Hnd. simpl.
      unfold JsMap.keys, ids. rewrite map_map. reflexivity. }
    destruct (keys_fold_incoming_extends incoming
                (index_existing existing JsMap.empty)) as (fresh & Hfresh).
    exists fresh. rewrite merge_useCases_keys, Hfresh, Hkeys.
    split; [ reflexivity | ].
    intros k Hk.
    assert (Hnd' : NoDup (ids existing ++ fresh)).
    { rewrite <- Hkeys, <- Hfresh.
      apply fold_incoming_well_keyed, index_existing_well_keyed, well_keyed_empty. }
    assert (Hnot : ~ In k (ids existing)).
    { intros Hin. apply in_split in Hk. destruct Hk as (f1 & f2 & ->).
      rewrite app_assoc in Hnd'. apply NoDup_remove_2 in Hnd'.
      apply Hnd'. apply in_or_app. left. apply in_or_app. left. exact Hin. }
    split; [ | exact Hnot ].
    assert (Hin : In k (JsMap.keys (fold_incoming incoming
                                      (index_existing existing JsMap.empty)))).
    { rewrite Hfresh. apply in_or_app. right. exact Hk. }
    apply keys_fold_incoming in Hin. rewrite Hkeys in Hin. tauto.
Qed.

(** X2.  A merge touches only the entries whose id comes in: an existing entry
    with another id stays as it is, and a record with a new id is inserted
    as it comes. *)
Theorem merge_useCases_other_entries (existing incoming : list UseCaseT)
    (k : string) (x : UseCaseT) :
  (filter (has_id k) existing = [x] /\ filter (has_id k) incoming = []) \/
  (filter (has_id k) existing = [] /\ filter (has_id k) incoming = [x]) ->
  filter (has_id k) (merge_useCases existing incoming) = [x].
Proof.
  intros [[He Hi]|[He Hi]]; apply merge_useCases_entry; rewrite He, Hi; reflexivity.
Qed.

(* --------------------------------------------------------------------- *)
(** ** The step indicator *)
(* --------------------------------------------------------------------- *)

Lemma merge_useCases_nonempty (existing incoming : list UseCaseT) :
  existing <> [] \/ incoming <> [] -> merge_useCases existing incoming <> [].
Proof.
  intros Hne Hnil.
  assert (Hids : forall k, ~ In k (ids existing) /\ ~ In k (ids incoming)).
  { intros k. pose proof (proj1 (merge_useCases_ids existing incoming) k) as Hk.
    rewrite Hnil in Hk. simpl in Hk. tauto. }
  destruct Hne as [Hne|Hne].
  - destruct existing as [|u l]; [ congruence | ].
    apply (proj1 (Hids (UseCase.id u))). left. reflexivity.
  - destruct incoming as [|u l]; [ congruence | ].
    apply (proj2 (Hids (UseCase.id u))). left. reflexivity.
Qed.

(** X3.  The step indicator starts at 1 and never moves back under a merge,
    except when the update carries an empty [roles]. *)
Theorem activeStep_never_regresses (s : AgentState) (update : option AgentState) :
  (forall u, update = Some u -> roles u <> Val []) ->
  activeStep initialAgentState = 1 /\
  activeStep s <= activeStep (mergeState update s) <= 3.
Proof.
  intros Hroles. split; [ reflexivity | ].
  destruct update as [u|]; simpl.
  - specialize (Hroles u eq_refl).
    unfold activeStep; simpl.
    destruct (roles u) as [| |[|r rs]] eqn:Er; simpl; try congruence;
      destruct (useCases u) as [| |inc] eqn:Eu; simpl;
      destruct (roles s) as [| |[|r' rs']]; simpl;
      destruct (useCases s) as [| |[|e es]]; simpl; try lia;
      unfold or_default; simpl;
      match goal with
      | |- context [merge_useCases ?a ?b] =>
          destruct (merge_useCases a b) eqn:Em; try lia;
          exfalso; revert Em; apply merge_useCases_nonempty; left; discriminate
      | _ => idtac
      end.
  - unfold activeStep.
    destruct (provided (roles s)) as [[|? ?]|]; try lia.
    destruct (provided (useCases s)) as [[|? ?]|]; lia.
Qed.

(* --------------------------------------------------------------------- *)
(** ** The client *)
(* --------------------------------------------------------------------- *)

Lemma mergeState_useCases_again (su prev : AgentState) (ucs : list UseCaseT) :
  useCases su = Val ucs ->
  mergeState (Some (mkState Absent Absent (Val ucs))) (mergeState (Some su) prev)
    = mergeState (Some su) prev.
Proof.
  intros Hu.
  assert (Hst : useCases (mergeState (Some su) prev)
                = Val (merge_useCases (or_default (useCases prev) []) ucs)).
  { simpl. rewrite Hu. reflexivity. }
  destruct (mergeState (Some su) prev) as [o r us]. simpl in Hst. subst us.
  unfold mergeState. simpl. unfold or_default at 1. simpl.
  rewrite merge_useCases_idem. reflexivity.
Qed.

Lemma json_update_useCases {number : Type} (su : AgentStateOf (value number))
    (su' : AgentState) :
  json_update su = Some su' ->
  json_useCases_field (useCases su) = Some (useCases su').
Proof.
  unfold json_update.
  destruct (json_useCases_field (useCases su)) as [ucs|]; [ | discriminate ].
  intros Hs. injection Hs as <-. reflexivity.
Qed.

Lemma json_useCases_defined {number : Type}
    (l : list (UseCase.t (value number))) :
  (forall u, In u l -> exists s, UseCase.id u = JStr s) ->
  exists l', json_useCases l = Some l'.
Proof.
  induction l as [|u l IH]; simpl; intros Hall; [ eexists; reflexivity | ].
  destruct (Hall u (or_introl eq_refl)) as [s Hs].
  destruct IH as [l' Hl']; [ intros v Hv; apply Hall; right; exact Hv | ].
  unfold json_useCase. rewrite Hs, Hl'. eexists; reflexivity.
Qed.

Section ClientFacts.
Context {number : Type} `{JsNumber number}.
Variable JSON_parse : string -> result (value number).
Variable clock : nat -> Z.

Lemma receive_typed (b0 : Bundle.t number (value number))
    (b : Bundle.t number string) (c : Client.t) :
  Bundle.useCases b0
    = match Bundle.stateUpdates b0 with
      | Some su => match useCases su with
                   | Val l => Val l
                   | _ => Undef
                   end
      | None => Undef
      end ->
  json_bundle b0 = Some b ->
  Client.agentState (Client.receive b c)
    = mergeState (Bundle.stateUpdates b) (Client.agentState c).
Proof.
  unfold json_bundle. intros ->.
  destruct (Bundle.stateUpdates b0) as [su|]; simpl.
  - destruct (json_update su) as [su'|] eqn:Esu; [ | discriminate ].
    pose proof (json_update_useCases _ Esu) as Hucs.
    destruct (useCases su) as [| |l] eqn:El; simpl in *.
    + injection Hucs as Hucs. intros Hb. injection Hb as <-.
      unfold Client.receive. simpl. reflexivity.
    + injection Hucs as Hucs. intros Hb. injection Hb as <-.
      unfold Client.receive. simpl. reflexivity.
    + rewrite Hucs. intros Hb. injection Hb as <-.
      unfold Client.receive.
      cbn [Bundle.useCases Bundle.stateUpdates Bundle.reply Bundle.suggestions
           Bundle.guidance Bundle.questions].
      destruct (useCases su') as [| |[|u us]] eqn:Eu'; try reflexivity.
      unfold Client.with_agentState.
      cbn [Client.agentState Client.set_lists Client.say].
      apply mergeState_useCases_again. exact Eu'.
  - intros Hb. injection Hb as <-. reflexivity.
Qed.

Lemma json_bundle_defined (b0 : Bundle.t number (value number)) :
  Bundle.useCases b0
    = match Bundle.stateUpdates b0 with
      | Some su => match useCases su with
                   | Val l => Val l
                   | _ => Undef
                   end
      | None => Undef
      end ->
  string_ids b0 -> exists b, json_bundle b0 = Some b.
Proof.
  unfold json_bundle, string_ids. intros -> Hids.
  destruct (Bundle.stateUpdates b0) as [su|]; simpl.
  - unfold json_update.
    destruct (useCases su) as [| |l] eqn:El; simpl;
      try (eexists; reflexivity).
    destruct (json_useCases_defined l (Hids su l eq_refl El)) as [l' ->].
    eexists; reflexivity.
  - eexists; reflexivity.
Qed.

(** X4.  The bundle repeats [stateUpdates.useCases] as [useCases] and the client
    merges both.  When every use case of the update has a string for its
    [id], the second merge changes nothing: the client's new state is the
    one merge of [stateUpdates] into its state (and its state as it was
    when the bundle has no [stateUpdates]).  An [id] that is an object or
    an array is outside this statement: the client's [Map] compares such
    keys by reference, and the typed state has no place for them. *)
Theorem receive_merges_once (reply : string) (data : value number)
    (c : Client.t) :
  string_ids (bundle_of JSON_parse clock reply data) ->
  exists b,
    json_bundle (bundle_of JSON_parse clock reply data) = Some b /\
    Client.agentState (Client.receive b c)
      = mergeState (Bundle.stateUpdates b) (Client.agentState c).
Proof.
  intros Hids.
  destruct (@json_bundle_defined (bundle_of JSON_parse clock reply data)
              eq_refl Hids) as [b Hb].
  exists b. split; [ exact Hb | ].
  exact (@receive_typed (bundle_of JSON_parse clock reply data) b c eq_refl Hb).
Qed.

(** X5.  [sendMessage] sends nothing for a blank text or while a turn is in
    flight, and then leaves the page as it is; otherwise it sends exactly
    one request, carrying the trimmed text and the current state, and ends
    with the input cleared and [loading] reset. *)
Theorem sendMessage_one_request
    (api : Client.api_request -> Client.api_outcome number)
    (text : string) (c : Client.t) :
  (Client.sendMessage api text c = (c, []) /\
   (trim text = ""%string \/ Client.loading c = true)) \/
  (snd (Client.sendMessage api text c)
     = [Client.mkApi (trim text) (Client.agentState c)] /\
   trim text <> ""%string /\
   Client.loading c = false /\
   Client.loading (fst (Client.sendMessage api text c)) = false /\
   Client.message (fst (Client.sendMessage api text c)) = ""%string).
Proof.
  unfold Client.sendMessage.
  destruct (trim text) eqn:Et; simpl.
  - left. split; [ reflexivity | left; reflexivity ].
  - destruct (Client.loading c) eqn:El; simpl.
    + left. split; [ reflexivity | right; reflexivity ].
    + right. split; [ reflexivity | ].
      split; [ discriminate | ]. split; [ reflexivity | ].
      destruct (api _) as [|r]; simpl; [ split; reflexivity | ].
      destruct (ok_status (status r)); destruct (body r) as [e|d]; simpl;
        try (split; reflexivity).
      * unfold Client.receive. simpl.
        destruct (Bundle.stateUpdates d); destruct (Bundle.useCases d) as [| |[|? ?]];
          split; reflexivity.
      * destruct e as [[|? ?]| | |]; split; reflexivity.
Qed.

(** X6.  The session state changes only on a success response that carries
    [stateUpdates] or a non-empty [useCases]: a rejected fetch, a failure
    status or a bundle without updates leave it as it was. *)
Theorem agentState_changes_only_on_update
    (api : Client.api_request -> Client.api_outcome number)
    (text : string) (c : Client.t) :
  Client.agentState (fst (Client.sendMessage api text c)) <> Client.agentState c ->
  exists r data,
    api (Client.mkApi (trim text) (Client.agentState c)) = Client.ApiResponse r /\
    ok_status (status r) = true /\
    body r = Success data /\
    (Bundle.stateUpdates data <> None \/
     exists u us, Bundle.useCases data = Val (u :: us)).
Proof.
  unfold Client.sendMessage.
  destruct (negb (nonempty (trim text)) || Client.loading c);
    [ intros Hne; exfalso; apply Hne; reflexivity | ].
  simpl.
  destruct (api _) as [|r] eqn:Eapi;
    [ intros Hne; exfalso; apply Hne; reflexivity | ].
  destruct (ok_status (status r)) eqn:Eok.
  - destruct (body r) as [e|d] eqn:Eb;
      [ intros Hne; exfalso; apply Hne; reflexivity | ].
    intros Hne. exists r, d.
    do 3 (split; [ solve [ reflexivity | eassumption ] | ]).
    destruct (Bundle.stateUpdates d) as [su|] eqn:Es; [ left; discriminate | ].
    destruct (Bundle.useCases d) as [| |[|u us]] eqn:Eu;
      try (exfalso; apply Hne; unfold Client.receive; rewrite Es, Eu; reflexivity).
    right. eauto.
  - intros Hne. exfalso. apply Hne.
    destruct (body r) as [e|d]; [ destruct e as [[|? ?]| | |] | ]; reflexivity.
Qed.

End ClientFacts.

(** X7.  [saveOrg] replaces all four fields of [org] by the trimmed drafts,
    empty ones included, whatever they held, and leaves [roles] and
    [useCases] alone; [selectRole] makes the chosen role the only one,
    leaves [org] and [useCases] alone, clears the suggestions, and moves
    the step indicator past step 1. *)
Theorem direct_actions (c : Client.t) (role : string) :
  Client.agentState (Client.saveOrg c)
    = mkState
        (Val (Org.mk (Val (trim (Client.d_name (Client.orgDraft c))))
                     (Val (trim (Client.d_country (Client.orgDraft c))))
                     (Val (trim (Client.d_industry (Client.orgDraft c))))
                     (Val (trim (Client.d_size (Client.orgDraft c))))))
        (roles (Client.agentState c))
        (useCases (Client.agentState c)) /\
  Client.agentState (Client.selectRole role c)
    = mkState (org (Client.agentState c)) (Val [role])
        (useCases (Client.agentState c)) /\
  Client.suggestions (Client.selectRole role c) = [] /\
  2 <= activeStep (Client.agentState (Client.selectRole role c)).
Proof.
  split; [ | split; [ | split ] ]; try reflexivity.
  unfold activeStep. simpl.
  destruct (provided (useCases (Client.agentState c))) as [[|? ?]|]; lia.
Qed.

(* --------------------------------------------------------------------- *)
(** ** The handler *)
(* --------------------------------------------------------------------- *)

Lemma strings_of_strings {number : Type} (l : list string) :
  strings_of (map (@JStr number) l) = l.
Proof. induction l as [|s l IH]; simpl; [ reflexivity | rewrite IH; reflexivity ]. Qed.

Lemma strings_of_In {number : Type} (xs : list (value number)) (s : string) :
  In s (strings_of xs) <-> In (JStr s) xs.
Proof.
  induction xs as [|x xs IH]; simpl; [ tauto | ].
  destruct x; simpl; rewrite IH; intuition (try discriminate; try congruence).
Qed.

Section HandlerFacts.
Context {number : Type} `{JsNumber number}.
Variable JSON_parse : string -> result (value number).
Variable clock : nat -> Z.
Variable env : Env.
Variable upstream : upstream_request number -> upstream_outcome.

Lemma selectedModel_nonempty (model : value number) :
  nonempty (selectedModel env model) = true.
Proof.
  unfold selectedModel.
  destruct (nonempty (if is_string model then trim (as_string model) else ""))
    eqn:E; [ exact E | ].
  destruct (OPENAI_MODEL env) as [m|]; [ | reflexivity ].
  destruct (nonempty m) eqn:Em; [ exact Em | reflexivity ].
Qed.

(** X8.  The handler calls the upstream model at most once, and only for a POST
    whose [input] is a non-empty string while an API key is configured; the
    request then carries that input unchanged, the key, a non-empty model
    name, temperature 0 and [store: false]. *)
Theorem handler_calls_model_at_most_once (req : request number) :
  fst (handler JSON_parse clock env upstream req) = [] \/
  exists r input key,
    fst (handler JSON_parse clock env upstream req) = [r] /\
    method req = "POST"%string /\
    get_opt (or_else (req_body req) (JObj [])) "input" = JStr input /\
    input <> ""%string /\
    OPENAI_API_KEY env = Some key /\ key <> ""%string /\
    up_url r = "https://api.openai.com/v1/responses"%string /\
    up_message r = input /\
    up_bearer r = key /\
    nonempty (up_model r) = true /\
    up_temperature r = 0%Z /\
    up_store r = false.
Proof.
  unfold handler.
  destruct (String.eqb_spec (method req) "POST") as [Hm|Hm]; simpl; [ | left; reflexivity ].
  destruct (get_opt (or_else (req_body req) (JObj [])) "input") as [| | | |s| |] eqn:Ein;
    simpl; try (left; reflexivity); try (rewrite orb_true_r; left; reflexivity).
  destruct s as [|c s]; simpl; [ left; reflexivity | ].
  destruct (OPENAI_API_KEY env) as [[|k key]|]; simpl; try (left; reflexivity).
  right. eexists. exists (String c s), (String k key).
  split; [ reflexivity | ]. simpl.
  repeat (split; [ first [ reflexivity | assumption | discriminate ] | ]).
  split; [ apply selectedModel_nonempty | ]. split; reflexivity.
Qed.

(** X9.  A bundle is sent with status 200 and nothing else is: every error
    response has a status outside 200..299, so the client never takes one
    for a success. *)
Theorem handler_status_matches_body (req : request number) :
  match body (snd (handler JSON_parse clock env upstream req)) with
  | Success _ => status (snd (handler JSON_parse clock env upstream req)) = 200
  | ErrorBody _ =>
      ok_status (status (snd (handler JSON_parse clock env upstream req))) = false
  end.
Proof.
  unfold handler.
  destruct (negb (String.eqb (method req) "POST")); simpl; [ reflexivity | ].
  destruct (negb (truthy _) || negb (is_string _)); simpl; [ reflexivity | ].
  destruct (OPENAI_API_KEY env) as [key|]; simpl; [ | reflexivity ].
  destruct (nonempty key); simpl; [ | reflexivity ].
  unfold call_model.
  destruct (upstream _) as [|code text]; simpl; [ reflexivity | ].
  destruct (ok_status code) eqn:Eok; simpl; [ | exact Eok ].
  destruct (JSON_parse text) as [data|e]; simpl; [ | reflexivity ].
  destruct (extractText data); reflexivity.
Qed.

Lemma string_list_capped (obj : value number) (k : string) (n : nat) :
  capped n (string_list obj k n).
Proof.
  unfold string_list, capped.
  destruct (get_opt obj k); try exact I.
  apply firstn_le_length.
Qed.

Lemma string_list_cut (obj : value number) (k : string) (n : nat) :
  list_cut obj k n (string_list obj k n).
Proof.
  unfold list_cut, string_list. split; [ | split ].
  - intros xs ->. reflexivity.
  - intros l ->. rewrite strings_of_strings. reflexivity.
  - destruct (get_opt obj k); simpl; intros Harr;
      first [ reflexivity | discriminate Harr ].
Qed.

(** X10.  The lists of the bundle are capped whatever the model sent: at most 4
    suggestions, 6 guidance items, 3 questions and 3 examples.  When the
    candidate parses, each list comes from the property of its own name:
    for an array, its string elements in their order, cut after the
    first 4, 6, 3 and 3 of them; for anything else the list is missing.
    This holds whether or not the sanitizer throws afterwards. *)
Theorem bundle_lists_capped :
  (forall (reply : string) (data : value number),
     let b := bundle_of JSON_parse clock reply data in
     capped 4 (Bundle.suggestions b) /\ capped 6 (Bundle.guidance b) /\
     capped 3 (Bundle.questions b) /\ capped 3 (Bundle.examples b)) /\
  (forall (reply : string) (data : value number) (text : string)
          (obj : value number),
     jsonText reply = Some text -> nonempty text = true ->
     JSON_parse text = Ok obj ->
     let b := bundle_of JSON_parse clock reply data in
     list_cut obj "suggestions" 4 (Bundle.suggestions b) /\
     list_cut obj "guidance" 6 (Bundle.guidance b) /\
     list_cut obj "questions" 3 (Bundle.questions b) /\
     list_cut obj "examples" 3 (Bundle.examples b)).
Proof.
  split.
  - intros reply data b. unfold b, bundle_of, extract_structured. simpl.
    destruct (jsonText reply) as [text|]; [ | repeat split; exact I ].
    destruct (nonempty text); [ | repeat split; exact I ].
    unfold parse_structured.
    destruct (JSON_parse text) as [obj|e]; [ | repeat split; exact I ].
    simpl. repeat split; apply string_list_capped.
  - intros reply data text obj Htext Hne Hobj b.
    unfold b, bundle_of, extract_structured.
    rewrite Htext, Hne. unfold parse_structured. rewrite Hobj.
    cbn [Bundle.suggestions Bundle.guidance Bundle.questions Bundle.examples
         s_suggestions s_guidance s_questions s_examples].
    split; [ | split; [ | split ] ]; apply string_list_cut.
Qed.

Lemma map_indexed_null (us : list (value number)) :
  In JNull us ->
  forall i, ~ returns (map_indexed (sanitize_useCase clock) i us).
Proof.
  induction us as [|u us IH]; intros Hin i [l Hl]; [ contradiction | ].
  simpl in Hl. destruct Hin as [->|Hin].
  - discriminate Hl.
  - apply bind_ok in Hl. destruct Hl as (y & _ & Hl).
    apply bind_ok in Hl. destruct Hl as (ys & Hys & _).
    apply (IH Hin (S i)). exists ys. exact Hys.
Qed.

(** X11.  One [null] anywhere in [stateUpdates.useCases] costs the whole update:
    the sanitizer throws, the handler catches it, and the bundle has no
    [stateUpdates] (its [org] and [roles] are lost as well) while the lists
    parsed before the sanitizer ran are kept. *)
Theorem null_useCase_drops_update (text : string) (obj su : value number)
    (us : list (value number)) :
  JSON_parse text = Ok obj ->
  get_opt obj "stateUpdates" = su ->
  get su "useCases" = Ok (JArr us) ->
  In JNull us ->
  ~ returns (sanitizeStateUpdates clock su) /\
  s_stateUpdates (parse_structured JSON_parse clock text) = None /\
  s_suggestions (parse_structured JSON_parse clock text)
    = string_list obj "suggestions" 4.
Proof.
  intros Hparse Hsu Hget Hin.
  assert (Hthrows : ~ returns (sanitizeStateUpdates clock su)).
  { intros [r Hr]. unfold sanitizeStateUpdates in Hr.
    destruct su; simpl in Hget; try discriminate. simpl in Hr.
    apply bind_ok in Hr. destruct Hr as (io & _ & Hr).
    apply bind_ok in Hr. destruct Hr as (so & _ & Hr).
    apply bind_ok in Hr. destruct Hr as (ir & _ & Hr).
    apply bind_ok in Hr. destruct Hr as (iu & Hiu & Hr).
    apply bind_ok in Hr. destruct Hr as (suu & Hsuu & _).
    rewrite Hget in Hiu. injection Hiu as <-.
    apply bind_ok in Hsuu. destruct Hsuu as (l & Hl & _).
    apply (@map_indexed_null us Hin 0). exists l. exact Hl. }
  split; [ exact Hthrows | ].
  unfold parse_structured. rewrite Hparse, Hsu. simpl.
  split; [ | reflexivity ].
  destruct (truthy su && is_object su); [ | reflexivity ].
  destruct (sanitizeStateUpdates clock su) as [r|e] eqn:Es; [ | reflexivity ].
  exfalso. apply Hthrows. exists r. reflexivity.
Qed.

End HandlerFacts.

(* --------------------------------------------------------------------- *)
(** ** The sanitizer, field by field *)
(* --------------------------------------------------------------------- *)

Section SanitizerFields.
Context {number : Type} `{JsNumber number}.
Variable clock : nat -> Z.

Lemma get_ok_opt (v x : value number) (k : string) :
  get v k = Ok x -> x = get_opt v k /\ nullish v = false.
Proof.
  intros Hg. unfold get_opt. rewrite Hg. split; [ reflexivity | ].
  destruct v; try reflexivity; discriminate.
Qed.

Lemma risk_or_undefined_val (v : value number) (x : Risk) :
  risk_or_undefined v = Val x -> v = JStr (risk_name x).
Proof.
  unfold risk_or_undefined.
  repeat match goal with
         | |- (match ?t with _ => _ end) = _ -> _ => destruct t; try discriminate
         end.
  all: try (intros Hx; injection Hx as <-; reflexivity).
Qed.

Lemma risk_or_undefined_name (x : Risk) :
  risk_or_undefined (@JStr number (risk_name x)) = Val x.
Proof. destruct x; reflexivity. Qed.

(** X12.  [risk] survives the sanitizer exactly when it is one of the five
    literals; any other value, of any type, leaves it [undefined]. *)
Theorem sanitize_risk_enumerated (u : value number) (idx : nat)
    (r : UseCase.t (value number)) :
  sanitize_useCase clock u idx = Ok r ->
  (forall x, UseCase.risk r = Val x <-> get_opt u "risk" = JStr (risk_name x)) /\
  ((forall x, get_opt u "risk" <> JStr (risk_name x)) -> UseCase.risk r = Undef).
Proof.
  unfold sanitize_useCase. intros Hs. bind_inv Hs. injection Hs as <-. simpl.
  destruct (get_ok_opt _ _ E7) as [-> _].
  split.
  - intros x. split.
    + apply risk_or_undefined_val.
    + intros ->. apply risk_or_undefined_name.
  - intros Hno. destruct (risk_or_undefined (get_opt u "risk")) as [| |x] eqn:Er.
    + exfalso. revert Er. apply risk_or_undefined_present.
    + reflexivity.
    + exfalso. apply (Hno x). apply risk_or_undefined_val. exact Er.
Qed.

Lemma string_or_undefined_string (s : string) :
  string_or_undefined (@JStr number s) = Ok (if nonempty s then Val s else Undef).
Proof. unfold string_or_undefined. simpl. destruct (nonempty s); reflexivity. Qed.

Lemma keeps_string_get (u a : value number) (k : string) (f : field string) :
  get u k = Ok a -> string_or_undefined a = Ok f -> keeps_string (get_opt u k) f.
Proof.
  intros Hg Hf s Hs. destruct (get_ok_opt _ _ Hg) as [-> _].
  rewrite Hs, string_or_undefined_string in Hf. injection Hf as <-. reflexivity.
Qed.

Lemma keeps_strings_get (u a : value number) (k : string) :
  get u k = Ok a -> keeps_strings (get_opt u k) (strings_or_undefined a).
Proof.
  intros Hg l Hl. destruct (get_ok_opt _ _ Hg) as [-> _].
  rewrite Hl. simpl. rewrite strings_of_strings. reflexivity.
Qed.

(** X13.  Well-typed properties of a use case pass the sanitizer unchanged: a
    non-empty string as it is (an empty one counts as missing), a boolean
    [inScope] as it is, [false] included, and an array of strings as it
    is. *)
Theorem sanitize_useCase_keeps_well_typed (u : value number) (idx : nat)
    (r : UseCase.t (value number)) :
  sanitize_useCase clock u idx = Ok r ->
  keeps_string (get_opt u "name") (UseCase.name r) /\
  keeps_string (get_opt u "description") (UseCase.description r) /\
  keeps_string (get_opt u "process") (UseCase.process r) /\
  keeps_string (get_opt u "model") (UseCase.model r) /\
  keeps_string (get_opt u "owner") (UseCase.owner r) /\
  (forall b, get_opt u "inScope" = JBool b -> UseCase.inScope r = Val b) /\
  keeps_strings (get_opt u "data") (UseCase.data r) /\
  keeps_strings (get_opt u "subjects") (UseCase.subjects r) /\
  keeps_strings (get_opt u "jurisdictions") (UseCase.jurisdictions r).
Proof.
  unfold sanitize_useCase. intros Hs. bind_inv Hs. injection Hs as <-. simpl.
  repeat (split; [ first [ eapply keeps_string_get; eassumption
                         | eapply keeps_strings_get; eassumption
                         | idtac ] | ]);
    try (eapply keeps_strings_get; eassumption).
  intros b Hb. destruct (get_ok_opt _ _ E6) as [-> _]. rewrite Hb. reflexivity.
Qed.

(** X14.  [roles] of the output holds the string elements of the input array, in
    order, and nothing else; an array of strings passes unchanged, and
    anything that is not an array leaves [roles] out. *)
Theorem sanitize_roles_filtered (input : value number)
    (su : AgentStateOf (value number)) :
  sanitizeStateUpdates clock input = Ok (Some su) ->
  (forall rs, get_opt input "roles" = JArr rs ->
     roles su = Val (strings_of rs) /\
     forall s, In s (strings_of rs) <-> In (JStr s) rs) /\
  (forall l, get_opt input "roles" = JArr (map JStr l) -> roles su = Val l) /\
  ((forall rs, get_opt input "roles" <> JArr rs) -> roles su = Absent).
Proof.
  unfold sanitizeStateUpdates. intros Hs.
  destruct (negb (truthy input) || negb (is_object input)); [ discriminate | ].
  apply bind_ok in Hs. destruct Hs as (io & _ & Hs).
  apply bind_ok in Hs. destruct Hs as (so & _ & Hs).
  apply bind_ok in Hs. destruct Hs as (ir & Hir & Hs).
  apply bind_ok in Hs. destruct Hs as (iu & _ & Hs).
  apply bind_ok in Hs. destruct Hs as (suu & _ & Hs).
  injection Hs as <-. simpl.
  destruct (get_ok_opt _ _ Hir) as [-> _].
  split; [ | split ].
  - intros rs ->. split; [ reflexivity | ]. intros s. apply strings_of_In.
  - intros l ->. rewrite strings_of_strings. reflexivity.
  - intros Hno. destruct (get_opt input "roles"); try reflexivity.
    exfalso. apply (Hno elems). reflexivity.
Qed.

End SanitizerFields.

Section SanitizerThrows.
Context {number : Type} `{JsNumber number}.
Variable clock : nat -> Z.

Lemma string_or_undefined_safe (x : value number) (f : field string) :
  string_or_undefined x = Ok f -> safe_scalar x.
Proof.
  intros Hf. destruct (string_or_undefined_inv _ Hf) as [(_ & s & Hs & _)|(Ht & _)].
  - right. exists s. exact Hs.
  - left. exact Ht.
Qed.

Lemma safe_scalar_get (u a : value number) (k : string) (f : field string) :
  get u k = Ok a -> string_or_undefined a = Ok f -> safe_scalar (get_opt u k).
Proof.
  intros Hg Hf. destruct (get_ok_opt _ _ Hg) as [<- _].
  eapply string_or_undefined_safe. exact Hf.
Qed.

Lemma sanitize_useCase_safe (u : value number) (idx : nat)
    (r : UseCase.t (value number)) :
  sanitize_useCase clock u idx = Ok r -> safe_element u.
Proof.
  unfold sanitize_useCase. intros Hs. bind_inv Hs.
  split; [ exact (proj2 (get_ok_opt _ _ E)) | ].
  repeat (split; [ eapply safe_scalar_get; eassumption | ]).
  eapply safe_scalar_get; eassumption.
Qed.

Lemma sanitize_org_safe (o : value number) (so : Org.t) :
  sanitize_org o = Ok so -> safe_org o.
Proof.
  unfold sanitize_org. intros Hs. bind_inv Hs.
  repeat (split; [ eapply safe_scalar_get; eassumption | ]).
  eapply safe_scalar_get; eassumption.
Qed.

Lemma map_indexed_safe (us : list (value number)) :
  forall i l,
    map_indexed (sanitize_useCase clock) i us = Ok l -> Forall safe_element us.
Proof.
  induction us as [|u us IH]; intros i l Hl; [ constructor | ].
  simpl in Hl. bind_inv Hl.
  constructor; [ eapply sanitize_useCase_safe; eassumption | eapply IH; eassumption ].
Qed.

Lemma no_properties (v : value number) (k : string) :
  (forall props, v <> JObj props) -> get_opt v k = JUndefined.
Proof.
  intros Hv. destruct v; try reflexivity. exfalso. apply (Hv props). reflexivity.
Qed.

Lemma safe_org_without_properties (o : value number) :
  (forall props, o <> JObj props) -> safe_org o.
Proof.
  intros Ho. unfold safe_org. rewrite !(no_properties _ Ho).
  repeat split; left; reflexivity.
Qed.

(** X15.  When the sanitizer throws, exactly: it returns if and only if no
    element of [useCases] is [null] or [undefined] and every truthy scalar
    property it converts, of [org] and of each use case, is one that
    [String] can convert. *)
Theorem sanitizer_returns_iff (input : value number) :
  returns (sanitizeStateUpdates clock input) <->
  (truthy (get_opt input "org") = true -> safe_org (get_opt input "org")) /\
  (forall us, get_opt input "useCases" = JArr us -> Forall safe_element us).
Proof.
  split.
  - intros [r Hr].
    destruct input as [| | | | | |props];
      try (split; [ intros Ht; discriminate Ht | intros us Hus; discriminate Hus ]).
    unfold sanitizeStateUpdates in Hr. simpl in Hr.
    apply bind_ok in Hr. destruct Hr as (io & Hio & Hr).
    apply bind_ok in Hr. destruct Hr as (so & Hso & Hr).
    apply bind_ok in Hr. destruct Hr as (ir & _ & Hr).
    apply bind_ok in Hr. destruct Hr as (iu & Hiu & Hr).
    apply bind_ok in Hr. destruct Hr as (suu & Hsuu & _).
    assert (Eio : io = get_opt (JObj props) "org").
    { unfold get_opt. simpl. destruct (lookup "org" props); congruence. }
    assert (Eiu : iu = get_opt (JObj props) "useCases").
    { unfold get_opt. simpl. destruct (lookup "useCases" props); congruence. }
    rewrite <- Eio, <- Eiu. clear Eio Eiu Hio Hiu.
    split.
    + intros Ht. rewrite Ht in Hso. simpl in Hso.
      destruct (is_object io) eqn:Eo.
      * apply bind_ok in Hso. destruct Hso as (o & Ho & _).
        eapply sanitize_org_safe. exact Ho.
      * apply safe_org_without_properties. intros p ->. discriminate Eo.
    + intros us ->. apply bind_ok in Hsuu. destruct Hsuu as (l & Hl & _).
      eapply map_indexed_safe. exact Hl.
  - intros [Horg Hucs]. apply sanitize_returns; assumption.
Qed.

End SanitizerThrows.

(* --------------------------------------------------------------------- *)
(** ** Extraction: the other shapes of a reply *)
(* --------------------------------------------------------------------- *)

Local Open Scope string_scope.

Lemma match_json_fence_nowhere (s : string) :
  (forall n, starts_with_ci "```json" (drop n s) = false) ->
  match_json_fence s = None.
Proof.
  induction s as [|c s IH]; intros Hq.
  - reflexivity.
  - cbn [match_json_fence].
    assert (H0 : starts_with_ci "```json" (String c s) = false) by apply (Hq 0).
    rewrite (no_opening_no_match _ H0).
    apply IH. intros n. apply (Hq (S n)).
Qed.

Lemma from_first_open_found (pre rest : string) :
  lacks "{" pre = true ->
  from_first_open (pre ++ "{" ++ rest) = Some ("{" ++ rest).
Proof.
  induction pre as [|c pre IH]; simpl; intros Hl; [ reflexivity | ].
  apply andb_prop in Hl. destruct Hl as [Hc Hl].
  apply negb_true_iff in Hc. rewrite Hc. apply IH. exact Hl.
Qed.

Lemma from_first_open_none (s : string) :
  lacks "{" s = true -> from_first_open s = None.
Proof.
  induction s as [|c s IH]; simpl; intros Hl; [ reflexivity | ].
  apply andb_prop in Hl. destruct Hl as [Hc Hl].
  apply negb_true_iff in Hc. rewrite Hc. apply IH. exact Hl.
Qed.

Lemma upto_last_close_none (s : string) :
  lacks "}" s = true -> upto_last_close s = None.
Proof.
  induction s as [|c s IH]; simpl; intros Hl; [ reflexivity | ].
  apply andb_prop in Hl. destruct Hl as [Hc Hl].
  apply negb_true_iff in Hc. rewrite (IH Hl), Hc. reflexivity.
Qed.

Lemma upto_last_close_found (x post : string) :
  lacks "}" post = true ->
  upto_last_close (x ++ "}" ++ post) = Some (x ++ "}").
Proof.
  intros Hl. induction x as [|c x IH]; simpl.
  - rewrite (upto_last_close_none _ Hl). reflexivity.
  - simpl in IH. rewrite IH. reflexivity.
Qed.

(** X16.  Without any [```json] in the reply, the candidate is the span from the
    first [{] of the reply to its last [}], whatever lies between. *)
Theorem brace_fallback (reply pre mid post : string) :
  first_json_opening reply = None ->
  reply = pre ++ "{" ++ mid ++ "}" ++ post ->
  lacks "{" pre = true ->
  lacks "}" post = true ->
  jsonText reply = Some ("{" ++ mid ++ "}").
Proof.
  intros Hno -> Hpre Hpost. unfold jsonText.
  rewrite match_json_fence_nowhere
    by (apply first_json_opening_none; exact Hno).
  unfold match_braces. rewrite from_first_open_found by exact Hpre.
  apply (upto_last_close_found ("{" ++ mid) post Hpost).
Qed.

Lemma match_braces_none (s : string) :
  lacks "{" s = true \/ lacks "}" s = true -> match_braces s = None.
Proof.
  unfold match_braces. intros [Hl|Hl].
  - rewrite from_first_open_none by exact Hl. reflexivity.
  - destruct (from_first_open s) as [r|] eqn:Er; [ | reflexivity ].
    apply upto_last_close_none.
    revert r Er. induction s as [|c s IH]; simpl; intros r Er; [ discriminate | ].
    simpl in Hl. apply andb_prop in Hl. destruct Hl as [Hc Hl].
    destruct (Ascii.eqb c "{").
    + injection Er as <-. simpl. rewrite Hc, Hl. reflexivity.
    + apply IH; assumption.
Qed.

(** X17.  A reply of plain prose, without a fence marker: the narrative is the
    reply trimmed; and if it also lacks a brace, nothing structured is
    extracted and the bundle carries the narrative alone. *)
Theorem plain_prose_reply {number : Type} `{JsNumber number}
    (JSON_parse : string -> result (value number)) (clock : nat -> Z)
    (reply : string) (data : value number) :
  find_fence reply = None ->
  cleanReply reply = trim reply /\
  (lacks "{" reply = true \/ lacks "}" reply = true ->
   bundle_of JSON_parse clock reply data = narrative_only reply data).
Proof.
  intros Hno.
  assert (Hq : forall n, starts_with_ci "```json" (drop n reply) = false).
  { intros n. apply no_fence_no_opening, find_fence_none. exact Hno. }
  split.
  - unfold cleanReply.
    rewrite (remove_all_nothing json_fence_span)
      by (intros n; apply no_opening_no_span, Hq).
    rewrite no_fence_unchanged by exact Hno. reflexivity.
  - intros Hl. unfold bundle_of, extract_structured, jsonText.
    rewrite (match_json_fence_nowhere _ Hq), (match_braces_none _ Hl).
    reflexivity.
Qed.

Lemma skip_spaces_no_leading (s : string) :
  starts_with_space (skip_spaces s) = false.
Proof.
  induction s as [|c s IH]; simpl; [ reflexivity | ].
  destruct (is_space c) eqn:Ec; [ exact IH | simpl; exact Ec ].
Qed.

Lemma trim_end_no_trailing (s : string) : ends_with_space (trim_end s) = false.
Proof.
  induction s as [|c s IH]; simpl; [ reflexivity | ].
  destruct (trim_end s) as [|c' t'] eqn:Et.
  - destruct (is_space c) eqn:Ec; simpl; [ reflexivity | exact Ec ].
  - exact IH.
Qed.

Lemma trim_end_keeps_start (s : string) :
  starts_with_space s = false -> starts_with_space (trim_end s) = false.
Proof.
  destruct s as [|c s]; simpl; [ reflexivity | ]. intros Hc.
  destruct (trim_end s); [ rewrite Hc | ]; simpl; exact Hc.
Qed.

Lemma trim_end_fixed (s : string) :
  ends_with_space s = false -> trim_end s = s.
Proof.
  induction s as [|c s IH]; simpl; [ reflexivity | ].
  destruct s as [|c' s'].
  - simpl. intros ->. reflexivity.
  - intros He. rewrite (IH He). reflexivity.
Qed.

Lemma skip_spaces_fixed (s : string) :
  starts_with_space s = false -> skip_spaces s = s.
Proof. destruct s as [|c s]; simpl; [ reflexivity | intros ->; reflexivity ]. Qed.

Lemma length_skip_spaces (s : string) :
  String.length (skip_spaces s) <= String.length s.
Proof.
  induction s as [|c s IH]; simpl; [ lia | ].
  destruct (is_space c); simpl; lia.
Qed.

Lemma length_trim_end (s : string) :
  String.length (trim_end s) <= String.length s.
Proof.
  induction s as [|c s IH]; simpl; [ lia | ].
  destruct (trim_end s); [ destruct (is_space c) | ]; simpl in *; lia.
Qed.

Lemma length_remove_all (span : string -> option nat) (s : string) :
  forall n, String.length (remove_all span n s) <= String.length s.
Proof.
  induction s as [|c s IH]; intros n; simpl; [ lia | ].
  destruct n as [|n].
  - destruct (span (String c s)) as [[|k]|]; simpl;
      first [ specialize (IH 0); lia | specialize (IH k); lia ].
  - specialize (IH n). lia.
Qed.

(** X18.  The narrative neither starts nor ends with white space and is never
    longer than the reply; the trim the client applies to it again changes
    nothing. *)
Theorem cleanReply_is_trimmed (reply : string) :
  starts_with_space (cleanReply reply) = false /\
  ends_with_space (cleanReply reply) = false /\
  String.length (cleanReply reply) <= String.length reply /\
  trim (cleanReply reply) = cleanReply reply.
Proof.
  assert (Hs : starts_with_space (cleanReply reply) = false).
  { unfold cleanReply, trim. apply trim_end_keeps_start, skip_spaces_no_leading. }
  assert (He : ends_with_space (cleanReply reply) = false).
  { unfold cleanReply, trim. apply trim_end_no_trailing. }
  split; [ exact Hs | ]. split; [ exact He | ]. split.
  - unfold cleanReply, trim.
    eapply Nat.le_trans; [ apply length_trim_end | ].
    eapply Nat.le_trans; [ apply length_skip_spaces | ].
    eapply Nat.le_trans; [ apply length_remove_all | ].
    apply length_remove_all.
  - unfold trim at 1. rewrite (skip_spaces_fixed _ Hs). apply trim_end_fixed, He.
Qed.

Local Open Scope list_scope.

Section ExtractText.
Context {number : Type} `{JsNumber number}.

(** X19.  [extractText]: nothing for a falsy body; a non-blank [output_text] is
    returned as it is, before anything else is looked at; and the only
    shape on which it throws is the chat-completion one with an array as
    [content]. *)
Theorem extractText_cases (d : value number) :
  (truthy d = false -> extractText d = Ok ""%string) /\
  (forall s, get_opt d "output_text" = JStr s -> trim s <> ""%string ->
     extractText d = Ok s) /\
  (forall e, extractText d = Throw e ->
     exists xs,
       get_opt (get_opt (first_opt (get_opt d "choices")) "message") "content"
         = JArr xs).
Proof.
  split; [ | split ].
  - intros Ht. unfold extractText. rewrite Ht. reflexivity.
  - intros s Hs Hne. unfold extractText.
    assert (Ht : truthy d = true).
    { destruct d; try discriminate Hs; reflexivity. }
    rewrite Ht, Hs. simpl.
    destruct (trim s); [ congruence | reflexivity ].
  - intros e. unfold extractText.
    destruct (negb (truthy d)); [ discriminate | ].
    destruct (is_string (get_opt d "output_text")
              && nonempty (trim (as_string (get_opt d "output_text"))));
      [ discriminate | ].
    assert (Hcc : chat_completion d = Throw e ->
                  exists xs,
                    get_opt (get_opt (first_opt (get_opt d "choices")) "message")
                      "content" = JArr xs).
    { unfold chat_completion.
      destruct (get_opt (get_opt (first_opt (get_opt d "choices")) "message")
                  "content"); try discriminate.
      intros _. eauto. }
    destruct (get_opt d "output"); try exact Hcc.
    destruct (nonempty (trim (join "" (flat_map item_parts elems))));
      [ discriminate | exact Hcc ].
Qed.

End ExtractText.

(* --------------------------------------------------------------------- *)
(** ** Rendering a parsed value; merging [org] *)
(* --------------------------------------------------------------------- *)

Section RenderingFacts.
Context {number : Type} `{JsNumber number}.

(** Induction on a value and, with it, on the values it holds. *)
Lemma value_nested_ind (P : value number -> Prop) :
  P JUndefined -> P JNull -> (forall b, P (JBool b)) -> (forall n, P (JNum n)) ->
  (forall s, P (JStr s)) ->
  (forall elems, Forall P elems -> P (JArr elems)) ->
  (forall props, Forall (fun kv => P (snd kv)) props -> P (JObj props)) ->
  forall v, P v.
Proof.
  intros Hu Hn Hb Hm Hs Ha Ho. fix IH 1.
  intros [| |b|n|s|elems|props];
    [ exact Hu | exact Hn | apply Hb | apply Hm | apply Hs | | ].
  - apply Ha. induction elems as [|x l IHl]; constructor; [ apply IH | exact IHl ].
  - apply Ho. induction props as [|[k x] l IHl]; constructor; [ apply IH | exact IHl ].
Qed.

Lemma primitive_convertible (v : value number) :
  is_object v = false -> convertible v.
Proof.
  destruct v as [| |[|]| | | |]; try discriminate; intros _; eexists; reflexivity.
Qed.

(** X20.  [renderObject] never throws: it applies [String] only to values that
    are not objects, and to [null]. *)
Theorem renderObject_returns (obj : value number) : returns (renderObject obj).
Proof.
  induction obj as [| |b|n|s|elems IH|props IH] using value_nested_ind;
    try (unfold returns; simpl; eauto; fail).
  - destruct b; unfold returns; simpl; eauto.
  - simpl.
    assert (Heach : returns
              ((fix each (l : list (value number)) : result (list li) :=
                  match l with
                  | [] => Ok []
                  | item :: rest =>
                      e <- renderObject item ;; es <- each rest ;; Ok (li_item e :: es)
                  end) elems)).
    { induction IH as [|x l (e & Hx) _ (es & Hl)]; [ eexists; reflexivity | ].
      rewrite Hx. simpl. rewrite Hl. simpl. eexists. reflexivity. }
    destruct Heach as (items & ->). simpl. eexists. reflexivity.
  - simpl.
    assert (Heach : returns
              ((fix each (l : list (string * value number)) : result (list li) :=
                  match l with
                  | [] => Ok []
                  | (key, v) :: rest =>
                      shown <- (if is_object v
                                then e <- renderObject v ;; Ok (inl e)
                                else s <- to_String v ;; Ok (inr s)) ;;
                      es <- each rest ;; Ok (li_entry key shown :: es)
                  end) props)).
    { induction IH as [|[k x] l (e & Hx) _ (es & Hl)]; [ eexists; reflexivity | ].
      simpl in Hx. destruct (is_object x) eqn:Eo.
      - rewrite Hx. simpl. rewrite Hl. simpl. eexists. reflexivity.
      - destruct (primitive_convertible _ Eo) as (s & ->). simpl.
        rewrite Hl. simpl. eexists. reflexivity. }
    destruct Heach as (items & ->). simpl. eexists. reflexivity.
Qed.

End RenderingFacts.

(** X22.  [org] merges field by field: a property the update has wins, one it
    lacks keeps the previous value; and an update that provides neither
    [org], [roles] nor [useCases] leaves the state as it is. *)
Theorem mergeState_org_field_union (prev update : AgentState) :
  (forall uo, org update = Val uo ->
   exists ro,
     org (mergeState (Some update) prev) = Val ro /\
     let po := or_default (org prev) Org.empty in
     unions (Org.name po) (Org.name uo) (Org.name ro) /\
     unions (Org.country po) (Org.country uo) (Org.country ro) /\
     unions (Org.industry po) (Org.industry uo) (Org.industry ro) /\
     unions (Org.size po) (Org.size uo) (Org.size ro)) /\
  (provided (org update) = None -> provided (roles update) = None ->
   provided (useCases update) = None ->
   mergeState (Some update) prev = prev).
Proof.
  split.
  - intros uo Ho. eexists. split; [ simpl; rewrite Ho; reflexivity | ].
    simpl. repeat split; apply spread_field_unions.
  - intros Ho Hr Hu. unfold mergeState. rewrite Ho, Hr, Hu.
    destruct prev; reflexivity.
Qed.

(* --------------------------------------------------------------------- *)
(** ** Worked examples of the further properties *)
(* --------------------------------------------------------------------- *)

Lemma merge_useCases_other_entries_witness :
  filter (has_id "uc-1") (merge_useCases [uc1_named] [bare "uc-2"]) = [uc1_named].
Proof.
  apply merge_useCases_other_entries. left. split; reflexivity.
Defined.

Lemma activeStep_never_regresses_witness :
  activeStep initialAgentState = 1 /\
  activeStep provider_with_uc1
    <= activeStep (mergeState (Some (only_useCases [])) provider_with_uc1) <= 3.
Proof.
  apply activeStep_never_regresses.
  intros u Hu. injection Hu as <-. discriminate.
Defined.

(** The end-to-end scenario: the model names the role and one use case,
    and the client ends with exactly that role and that use case. *)
Lemma receive_merges_once_witness :
  exists b,
    json_bundle (bundle_of parse_registry frozen_clock registry_reply JNull) = Some b /\
    Client.agentState (Client.receive b idle_client)
      = mkState Absent (Val ["deployer"]) (Val [uc1_recommendation]).
Proof.
  assert (Hids : string_ids
                   (bundle_of parse_registry frozen_clock registry_reply JNull)).
  { intros su l Hsu Hl u Hu.
    vm_compute in Hsu. injection Hsu as <-.
    vm_compute in Hl. injection Hl as <-.
    destruct Hu as [<-|[]]. eexists. reflexivity. }
  destruct (@receive_merges_once Z Z_number parse_registry frozen_clock
              registry_reply JNull idle_client Hids) as (b & Eb & Hst).
  exists b. split; [ exact Eb | ].
  rewrite Hst. vm_compute in Eb. injection Eb as <-. reflexivity.
Defined.

Lemma agentState_changes_only_on_update_witness :
  exists r data,
    answer_roles (Client.mkApi (trim "hello") (Client.agentState idle_client))
      = Client.ApiResponse r /\
    ok_status (status r) = true /\
    body r = Success data /\
    (Bundle.stateUpdates data <> None \/
     exists u us, Bundle.useCases data = Val (u :: us)).
Proof.
  apply (@agentState_changes_only_on_update Z answer_roles "hello" idle_client).
  intros Heq. vm_compute in Heq. discriminate Heq.
Defined.

(** Six suggestions, the second a number: the four first strings are kept;
    [questions] is not an array and is dropped. *)
Lemma bundle_lists_capped_witness :
  Bundle.suggestions (bundle_of parse_crowded frozen_clock crowded_reply JNull)
    = Some ["a"; "b"; "c"; "d"] /\
  Bundle.questions (bundle_of parse_crowded frozen_clock crowded_reply JNull)
    = None.
Proof.
  assert (Htext : jsonText crowded_reply = Some (crowded_text ++ line_feed)%string)
    by (vm_compute; reflexivity).
  assert (Hobj : parse_crowded (crowded_text ++ line_feed)%string = Ok crowded_block)
    by (vm_compute; reflexivity).
  pose proof (proj2 (@bundle_lists_capped Z Z_number parse_crowded frozen_clock)
                crowded_reply JNull _ _ Htext eq_refl Hobj) as Hw.
  cbv zeta in Hw. destruct Hw as ((Hs & _ & _) & _ & (_ & _ & Hq) & _).
  split; [ exact (Hs _ eq_refl) | exact (Hq eq_refl) ].
Defined.

Lemma null_useCase_drops_update_witness :
  s_stateUpdates (parse_structured parse_null_block frozen_clock "{ }") = None /\
  s_suggestions (parse_structured parse_null_block frozen_clock "{ }")
    = Some ["Retry"].
Proof.
  destruct (@null_useCase_drops_update Z Z_number parse_null_block frozen_clock
              "{ }" null_block
              (JObj [("roles", JArr [JStr "deployer"]);
                     ("useCases", JArr [JObj [("id", JStr "uc-1")]; JNull])])
              [JObj [("id", JStr "uc-1")]; JNull]
              eq_refl eq_refl eq_refl (or_intror (or_introl eq_refl)))
    as (_ & Hnone & Hkept).
  split; [ exact Hnone | exact Hkept ].
Defined.

(** A use case with [risk: "extreme"] comes out with [risk] undefined. *)
Lemma sanitize_risk_enumerated_witness :
  sanitize_useCase frozen_clock extreme_risk 0 = Ok (all_undefined (JStr "uc-1")) /\
  UseCase.risk (all_undefined (JStr "uc-1")) = Undef.
Proof.
  split; [ reflexivity | ].
  apply (proj2 (@sanitize_risk_enumerated Z Z_number frozen_clock extreme_risk 0
                  (all_undefined (JStr "uc-1")) eq_refl)).
  intros x. destruct x; discriminate.
Defined.

Lemma sanitize_useCase_keeps_well_typed_witness :
  keeps_string (JStr "Recommendation Engine" : value Z) (UseCase.name uc1_sanitized).
Proof.
  exact (proj1 (@sanitize_useCase_keeps_well_typed Z Z_number frozen_clock
                  (JObj [("id", JStr "uc-1");
                         ("name", JStr "Recommendation Engine");
                         ("risk", JStr "limited")])
                  0 uc1_sanitized eq_refl)).
Defined.

Lemma sanitize_roles_filtered_witness :
  sanitizeStateUpdates frozen_clock registry_update = Ok (Some registry_sanitized) /\
  roles registry_sanitized = Val ["deployer"].
Proof.
  split; [ reflexivity | ].
  apply (proj1 (proj2 (@sanitize_roles_filtered Z Z_number frozen_clock
                         registry_update registry_sanitized eq_refl))
           ["deployer"]).
  reflexivity.
Defined.

Lemma brace_fallback_witness :
  jsonText "Sure {a} and {b} ok" = Some "{a} and {b}"%string.
Proof.
  apply (@brace_fallback "Sure {a} and {b} ok" "Sure " "a} and {b" " ok");
    reflexivity.
Defined.

Lemma plain_prose_reply_witness :
  cleanReply "  Hello there.  " = "Hello there."%string /\
  bundle_of reject_all frozen_clock "  Hello there.  " JNull
    = narrative_only "  Hello there.  " JNull.
Proof.
  destruct (@plain_prose_reply Z Z_number reject_all frozen_clock
              "  Hello there.  " JNull eq_refl) as [Hclean Hbundle].
  split; [ exact Hclean | ].
  apply Hbundle. left. reflexivity.
Defined.
